(** * dicom2nifti: the generic anatomical conversion (convert_generic.py)

    A shallow embedding of [dicom2nifti/convert_generic.py] and the
    properties of its slice curation pipeline.

    Numbers.  DICOM stores positions and direction cosines as decimal
    strings; they are embedded as exact rationals [Q] and numpy's
    element-wise arithmetic is read exactly (no rounding).  A Euclidean
    norm is kept exactly as the square root of a rational, see [real]. *)

From Stdlib Require Import QArith Qabs Qround ZArith List String Bool Lia Lqa.
From Stdlib Require DecimalString.
From Stdlib Require Import Permutation.
Import ListNotations.
Open Scope string_scope.
Open Scope list_scope.
Open Scope Q_scope.

Set Implicit Arguments.

(** ** Python exceptions and results *)

Inductive exn : Type :=
| ConversionError (reason : string)
| ConversionValidationError (reason : string)
| IndexError
| KeyError
| StopIteration.

Inductive result (A : Type) : Type :=
| Ok (a : A)
| Raise (e : exn).

Arguments Ok {A} a.
Arguments Raise {A} e.

Definition bind {A B : Type} (m : result A) (k : A -> result B) : result B :=
  match m with
  | Ok a => k a
  | Raise e => Raise e
  end.

Notation "x <- m ;; k" := (bind m (fun x => k))
  (at level 61, m at next level, right associativity).
Notation "' p <- m ;; k" := (bind m (fun x => match x with p => k end))
  (at level 61, p pattern, m at next level, right associativity).

(** ** numpy on 3-vectors *)

Definition vec3 : Type := (Q * Q * Q)%type.

(** [numpy.array(a) - numpy.array(b)] *)
Definition vsub (a b : vec3) : vec3 :=
  let '(a0, a1, a2) := a in
  let '(b0, b1, b2) := b in
  (a0 - b0, a1 - b1, a2 - b2).

(** One component of [numpy.isclose]: [|a - b| <= atol + rtol * |b|]. *)
Definition isclose (rtol atol a b : Q) : bool :=
  Qle_bool (Qabs (a - b)) (atol + rtol * Qabs b).

(** [numpy.allclose(a, b, rtol=rtol, atol=atol)] on 3-vectors. *)
Definition allclose (rtol atol : Q) (a b : vec3) : bool :=
  let '(a0, a1, a2) := a in
  let '(b0, b1, b2) := b in
  isclose rtol atol a0 b0 && isclose rtol atol a1 b1 && isclose rtol atol a2 b2.

(** A non-negative real number given exactly as the square root of a
    rational: [Sqrt q] is the real number [sqrt q].  This is the type of
    [numpy.linalg.norm] results. *)
Inductive real : Type := Sqrt (radicand : Q).

Definition radicand (r : real) : Q := let 'Sqrt q := r in q.

(** The rational [q >= 0] as a real: [q = sqrt (q * q)]. *)
Definition real_of_Q (q : Q) : real := Sqrt (q * q).

(** [a < b] on square roots is [<] on the radicands. *)
Definition real_ltb (a b : real) : bool :=
  negb (Qle_bool (radicand b) (radicand a)).

Definition real_eqb (a b : real) : bool :=
  Qeq_bool (radicand a) (radicand b).

(** [numpy.linalg.norm(v)]: [sqrt (v . v)]. *)
Definition norm (v : vec3) : real :=
  let '(x, y, z) := v in Sqrt (x * x + y * y + z * z).

(** Voxel sizes ([header.get_zooms()]): three norms. *)
Definition zooms : Type := (real * real * real)%type.

(** [numpy.linalg.norm] of a triple of square roots:
    [sqrt (sqrt a ^ 2 + sqrt b ^ 2 + sqrt c ^ 2) = sqrt (a + b + c)]. *)
Definition norm_zooms (z : zooms) : real :=
  let '(a, b, c) := z in Sqrt (radicand a + radicand b + radicand c).

(** Python's [max(a, b)]: [b] when [b > a], else [a]. *)
Definition py_max (a b : real) : real :=
  if real_ltb a b then b else a.

(** A value of [numpy.percentile]: the number
    [lower + fraction * (upper - lower)] between two samples,
    [0 <= fraction < 1]. *)
Record number : Type := mkNumber {
  lower : real;
  upper : real;
  fraction : Q
}.

(** A norm as a number. *)
Definition exactly (x : real) : number := mkNumber x x 0.

(** ** Python containers *)

(** A [dict] as an insertion-ordered association list; [eqb] is the
    equality of keys.  [dict_set] is [d[k] = v]: an existing key keeps its
    place, a new one goes last. *)
Section Dict.
Variables (K V : Type) (eqb : K -> K -> bool).

Fixpoint dict_get (d : list (K * V)) (k : K) : option V :=
  match d with
  | [] => None
  | (k', v) :: rest => if eqb k' k then Some v else dict_get rest k
  end.

Fixpoint dict_set (d : list (K * V)) (k : K) (v : V) : list (K * V) :=
  match d with
  | [] => [(k, v)]
  | (k', v') :: rest =>
      if eqb k' k then (k', v) :: rest else (k', v') :: dict_set rest k v
  end.

(** [k in d] *)
Definition dict_mem (d : list (K * V)) (k : K) : bool :=
  match dict_get d k with Some _ => true | None => false end.

(** [d[k]], KeyError when [k] is missing. *)
Definition dict_item (d : list (K * V)) (k : K) : result V :=
  match dict_get d k with Some v => Ok v | None => Raise KeyError end.
End Dict.

(** A [for] loop whose body may raise. *)
Fixpoint for_each {S A : Type} (body : S -> A -> result S) (l : list A) (st : S)
  : result S :=
  match l with
  | [] => Ok st
  | a :: rest => st' <- body st a ;; for_each body rest st'
  end.

(** [x in l] for a list of strings. *)
Definition in_list (x : string) (l : list string) : bool :=
  existsb (String.eqb x) l.

(** [sub in s] for two strings: [sub] occurs in [s]. *)
Definition in_str (sub s : string) : bool :=
  match String.index 0 sub s with Some _ => true | None => false end.

(** ** The slice (a pydicom dataset, the fields the module reads) *)

Definition pixels : Type := list (list Z).

Record dicom : Type := mkDicom {
  ImagePositionPatient : vec3;
  (** the six direction cosines, as [[0:3]] and [[3:6]] *)
  ImageOrientationPatient : vec3 * vec3;
  pixel_array : pixels;
  Modality : string;
  (** [None] when the dataset has no ImageType element *)
  ImageType : option (list string);
  (** tags (0018,0080) and (0018,0081), [None] when absent *)
  RepetitionTime : option Q;
  EchoTime : option Q;
  (** read by the collaborators only *)
  PixelSpacing : Q * Q
}.

(** ** _convert_slice_incement_inconsistencies, lines 179-198: the split *)

Record split_state : Type := mkSplit {
  increment : vec3;
  max_slice_increment : real;
  slice_incement_groups : list (list dicom);
  current_group : list dicom;
  previous_image_position : vec3
}.

(** The body of [for dicom in dicom_input[2:]].  [current_group[-1]] is
    [last current_group d]: the group is never empty (see
    [split_loop_current_group]). *)
Definition split_step (st : split_state) (d : dicom) : split_state :=
  let current_image_position := ImagePositionPatient d in
  let current_increment := vsub (previous_image_position st) current_image_position in
  let max_slice_increment' := py_max (max_slice_increment st) (norm current_increment) in
  let current_group1 :=
    if allclose (5 # 100) (1 # 10) (increment st) current_increment
    then current_group st ++ [d]
    else current_group st in
  if negb (allclose (5 # 100) (1 # 10) (increment st) current_increment)
  then mkSplit current_increment
               max_slice_increment'
               (slice_incement_groups st ++ [current_group1])
               [last current_group1 d; d]
               current_image_position
  else mkSplit (increment st)
               max_slice_increment'
               (slice_incement_groups st)
               current_group1
               current_image_position.

Definition split_init (d0 d1 : dicom) : split_state :=
  mkSplit (vsub (ImagePositionPatient d0) (ImagePositionPatient d1))
          (real_of_Q 0)
          []
          [d0; d1]
          (ImagePositionPatient d1).

Definition split_loop (st : split_state) (rest : list dicom) : split_state :=
  fold_left split_step rest st.

(** Lines 179-198: the list of runs and the maximum displacement.
    [dicom_input[0]] and [dicom_input[1]] raise IndexError on a series of
    fewer than two slices. *)
Definition split_slice_increments (dicom_input : list dicom)
  : result (list (list dicom) * real) :=
  match dicom_input with
  | d0 :: d1 :: rest =>
      let st := split_loop (split_init d0 d1) rest in
      Ok (slice_incement_groups st ++ [current_group st], max_slice_increment st)
  | _ => Raise IndexError
  end.

(** ** _remove_duplicate_slices, lines 97-115 *)

(** Equality of two position tuples: component-wise [==]. *)
Definition vec3_eqb (a b : vec3) : bool :=
  let '(a0, a1, a2) := a in
  let '(b0, b1, b2) := b in
  Qeq_bool a0 b0 && Qeq_bool a1 b1 && Qeq_bool a2 b2.

Fixpoint list_eqb {A : Type} (eqb : A -> A -> bool) (l1 l2 : list A) : bool :=
  match l1, l2 with
  | [], [] => true
  | x :: r1, y :: r2 => eqb x y && list_eqb eqb r1 r2
  | _, _ => false
  end.

(** [numpy.array_equal]: same shape and equal elements. *)
Definition array_equal (a b : pixels) : bool :=
  list_eqb (list_eqb Z.eqb) a b.

(** The loop state is [(dicoms_dict, filtered_dicoms)]; the key is
    [tuple(dicom_.ImagePositionPatient)]. *)
Definition duplicate_step (st : list (vec3 * dicom) * list dicom) (dicom_ : dicom)
  : list (vec3 * dicom) * list dicom :=
  let '(dicoms_dict, filtered_dicoms) := st in
  match dict_get vec3_eqb dicoms_dict (ImagePositionPatient dicom_) with
  | None =>
      (dict_set vec3_eqb dicoms_dict (ImagePositionPatient dicom_) dicom_,
       filtered_dicoms ++ [dicom_])
  | Some stored =>
      if array_equal (pixel_array dicom_) (pixel_array stored)
      then (dicoms_dict, filtered_dicoms)
      else (dicoms_dict, filtered_dicoms ++ [dicom_])
  end.

Definition _remove_duplicate_slices (dicoms : list dicom) : list dicom :=
  snd (fold_left duplicate_step dicoms ([], [])).

(** ** _remove_localizers_by_imagetype, lines 118-131 *)

(** ['ImageType' in dicom_ and marker in dicom_.ImageType] *)
Definition has_image_type (marker : string) (dicom_ : dicom) : bool :=
  match ImageType dicom_ with
  | Some image_type => in_list marker image_type
  | None => false
  end.

Definition imagetype_step (filtered_dicoms : list dicom) (dicom_ : dicom)
  : list dicom :=
  if has_image_type "LOCALIZER" dicom_ then filtered_dicoms
  else if in_str "CT" (Modality dicom_) && has_image_type "PROJECTION IMAGE" dicom_
  then filtered_dicoms
  else filtered_dicoms ++ [dicom_].

Definition _remove_localizers_by_imagetype (dicoms : list dicom) : list dicom :=
  fold_left imagetype_step dicoms [].

(** ** _remove_localizers_by_orientation, lines 134-171 *)

Definition orientation : Type := (vec3 * vec3)%type.

(** Lines 151-153: both direction cosines within tolerance of a stored
    orientation. *)
Definition orientation_close (image_orient_combined stored : orientation) : bool :=
  allclose (1 # 1000) (1 # 1000) (fst image_orient_combined) (fst stored)
  && allclose (1 # 1000) (1 # 1000) (snd image_orient_combined) (snd stored).

(** Equality of the dictionary keys [str(orientation)]: the same six
    numbers. *)
Definition str_eqb (a b : orientation) : bool :=
  vec3_eqb (fst a) (fst b) && vec3_eqb (snd a) (snd b).

Record orientation_state : Type := mkOrient {
  orientations : list orientation;
  sorted_dicoms : list (orientation * list dicom)
}.

(** The body of [for dicom_header in dicoms]; the inner loop with its
    [break] is [find]. *)
Definition orientation_step (st : orientation_state) (dicom_header : dicom)
  : result orientation_state :=
  let image_orient_combined := ImageOrientationPatient dicom_header in
  match find (orientation_close image_orient_combined) (orientations st) with
  | Some stored =>
      members <- dict_item str_eqb (sorted_dicoms st) stored ;;
      Ok (mkOrient (orientations st)
                   (dict_set str_eqb (sorted_dicoms st) stored
                             (members ++ [dicom_header])))
  | None =>
      Ok (mkOrient (orientations st ++ [image_orient_combined])
                   (dict_set str_eqb (sorted_dicoms st) image_orient_combined
                             [dicom_header]))
  end.

(** Lines 164-171.  Iterating the keys and reading each entry is iterating
    the entries; [six.next] of an empty iterator raises StopIteration. *)
Definition select_orientations (sorted_dicoms : list (orientation * list dicom))
  : result (list dicom) :=
  if (1 <? List.length sorted_dicoms)%nat
  then Ok (fold_left
             (fun filtered_dicoms entry =>
                if (4 <=? List.length (snd entry))%nat
                then filtered_dicoms ++ snd entry
                else filtered_dicoms)
             sorted_dicoms [])
  else match sorted_dicoms with
       | [] => Raise StopIteration
       | (_, members) :: _ => Ok members
       end.

Definition _remove_localizers_by_orientation (dicoms : list dicom)
  : result (list dicom) :=
  st <- for_each orientation_step dicoms (mkOrient [] []) ;;
  select_orientations (sorted_dicoms st).

(** ** The collaborators

    [dicom2nifti.settings] holds the five flags. *)
Module settings.
Record t : Type := mk {
  validate_slicecount : bool;
  validate_orientation : bool;
  validate_orthogonal : bool;
  validate_slice_increment : bool;
  resample : bool
}.
End settings.

(** What the module calls and this file does not contain:
    [dicom2nifti.common], [dicom2nifti.resample], nibabel, numpy.  The
    conversion is a function of them; every theorem about it holds for all
    of them. *)
Record collaborators : Type := mkCollaborators {
  ndarray : Type;
  affine : Type;
  nifti : Type;
  (** dicom2nifti.common *)
  validate_slicecount : list dicom -> result unit;
  validate_orientation : list dicom -> result unit;
  validate_orthogonal : list dicom -> result unit;
  sort_dicoms : list dicom -> result (list dicom);
  validate_slice_increment : list dicom -> result unit;
  is_slice_increment_inconsistent : list dicom -> result bool;
  get_volume_pixeldata : list dicom -> result ndarray;
  create_affine : list dicom -> result (affine * real);
  set_tr_te : nifti -> Q -> Q -> nifti;
  (** nibabel: [Nifti1Image(data, affine)], [image.header.get_zooms()] *)
  Nifti1Image : ndarray -> affine -> nifti;
  get_zooms : nifti -> zooms;
  (** [numpy.percentile(a, q)] and ['%.5f' % x] *)
  percentile : list real -> Q -> number;
  format_5f : number -> string;
  (** dicom2nifti.resample *)
  resample_nifti_images : list nifti -> zooms -> result nifti
}.

(** ** _convert_slice_incement_inconsistencies, lines 201-216 *)

Section Conversion.
Variable C : collaborators.

Record volumes_state : Type := mkVolumes {
  slice_incement_niftis : list (nifti C);
  slice_increments : list real;
  voxel_sizes : list (string * zooms)
}.

(** The body of [for dicom_slices in slice_incement_groups]. *)
Definition volume_step (st : volumes_state) (dicom_slices : list dicom)
  : result volumes_state :=
  data <- get_volume_pixeldata C dicom_slices ;;
  '(affine_, _) <- create_affine C dicom_slices ;;
  let current_volume := Nifti1Image C data affine_ in
  let slice_increment := norm_zooms (get_zooms C current_volume) in
  Ok (mkVolumes
        (slice_incement_niftis st ++ [current_volume])
        (slice_increments st
           ++ repeat slice_increment (List.length dicom_slices - 1))
        (dict_set String.eqb (voxel_sizes st)
                  (format_5f C (exactly slice_increment))
                  (get_zooms C current_volume))).

Definition _convert_slice_incement_inconsistencies (dicom_input : list dicom)
  : result (nifti C * real) :=
  '(slice_incement_groups, max_slice_increment) <-
      split_slice_increments dicom_input ;;
  st <- for_each volume_step slice_incement_groups (mkVolumes [] [] []) ;;
  voxel_size <- dict_item String.eqb (voxel_sizes st)
                  (format_5f C (percentile C (slice_increments st) 10)) ;;
  nifti_volume <- resample_nifti_images C (slice_incement_niftis st) voxel_size ;;
  Ok (nifti_volume, max_slice_increment).

(** ** dicom_to_nifti, lines 29-94 *)

Record conversion : Type := mkConversion {
  NII_FILE : option string;
  NII : nifti C;
  MAX_SLICE_INCREMENT : real
}.

Definition when (flag : bool) (check : result unit) : result unit :=
  if flag then check else Ok tt.

(** Lines 38-60: the curated, sorted series. *)
Definition sorted_series (cfg : settings.t) (dicom_input : list dicom)
  : result (list dicom) :=
  if (List.length dicom_input <=? 0)%nat
  then Raise (ConversionError "NO_DICOM_FILES_FOUND")
  else
    let dicom_input := _remove_duplicate_slices dicom_input in
    let dicom_input := _remove_localizers_by_imagetype dicom_input in
    dicom_input <-
      (if settings.validate_slicecount cfg
       then dicom_input <- _remove_localizers_by_orientation dicom_input ;;
            _ <- validate_slicecount C dicom_input ;;
            Ok dicom_input
       else Ok dicom_input) ;;
    _ <- when (settings.validate_orientation cfg)
              (validate_orientation C dicom_input) ;;
    _ <- when (settings.validate_orthogonal cfg)
              (validate_orthogonal C dicom_input) ;;
    sort_dicoms C dicom_input.

(** Lines 63-68: [slice_increment_inconsistent]. *)
Definition slice_increment_flag (cfg : settings.t) (dicom_input : list dicom)
  : result bool :=
  if settings.validate_slice_increment cfg
  then _ <- validate_slice_increment C dicom_input ;; Ok false
  else is_slice_increment_inconsistent C dicom_input.

(** Lines 76-81: the normal conversion. *)
Definition direct_conversion (dicom_input : list dicom)
  : result (nifti C * real) :=
  data <- get_volume_pixeldata C dicom_input ;;
  '(affine_, max_slice_increment) <- create_affine C dicom_input ;;
  Ok (Nifti1Image C data affine_, max_slice_increment).

(** Lines 84-85; [dicom_input[0]] raises IndexError on an empty list. *)
Definition attach_tr_te (dicom_input : list dicom) (nii_image : nifti C)
  : result (nifti C) :=
  match dicom_input with
  | [] => Raise IndexError
  | first :: _ =>
      match RepetitionTime first, EchoTime first with
      | Some tr, Some te => Ok (set_tr_te C nii_image tr te)
      | _, _ => Ok nii_image
      end
  end.

(** The image is also written to [output_file] when one is given; the
    file system is not part of the model. *)
Definition dicom_to_nifti (cfg : settings.t) (dicom_input : list dicom)
           (output_file : option string) : result conversion :=
  dicom_input <- sorted_series cfg dicom_input ;;
  slice_increment_inconsistent <- slice_increment_flag cfg dicom_input ;;
  '(nii_image, max_slice_increment) <-
      (if slice_increment_inconsistent && settings.resample cfg
       then _convert_slice_incement_inconsistencies dicom_input
       else direct_conversion dicom_input) ;;
  nii_image <- attach_tr_te dicom_input nii_image ;;
  Ok (mkConversion output_file nii_image max_slice_increment).
End Conversion.

(** ** Reference collaborators

    An executable stand-in for the collaborators, used to run the
    conversion on concrete series. *)

Definition dot (a b : vec3) : Q :=
  let '(a0, a1, a2) := a in
  let '(b0, b1, b2) := b in
  a0 * b0 + a1 * b1 + a2 * b2.

Definition cross (a b : vec3) : vec3 :=
  let '(a0, a1, a2) := a in
  let '(b0, b1, b2) := b in
  (a1 * b2 - a2 * b1, a2 * b0 - a0 * b2, a0 * b1 - a1 * b0).

(** Displacements of consecutive slices, previous position minus current
    position. *)
Fixpoint displacements (dicoms : list dicom) : list vec3 :=
  match dicoms with
  | previous :: ((current :: _) as rest) =>
      vsub (ImagePositionPatient previous) (ImagePositionPatient current)
      :: displacements rest
  | _ => []
  end.

(** The largest Euclidean norm of a list of displacements. *)
Definition max_norm (ds : list vec3) : real :=
  fold_left (fun m d => py_max m (norm d)) ds (real_of_Q 0).

(** Modelled from the spec: common.validate_slicecount is not in the
    sources (4.4: "series must contain at least the minimum number of
    slices required to form a volume"); the minimum is the 4 named by the
    docstring of [_remove_localizers_by_orientation]. *)
Definition ref_validate_slicecount (dicoms : list dicom) : result unit :=
  if (List.length dicoms <? 4)%nat
  then Raise (ConversionValidationError "TOO_FEW_SLICES/LOCALIZER")
  else Ok tt.

(** Modelled from the spec: common.validate_orientation is not in the
    sources (4.4: "every slice's orientation must match the first slice's
    orientation within tolerance", the tolerance of section 3). *)
Definition ref_validate_orientation (dicoms : list dicom) : result unit :=
  match dicoms with
  | [] => Raise IndexError
  | first :: _ =>
      if forallb (fun d => orientation_close (ImageOrientationPatient d)
                                             (ImageOrientationPatient first))
                 dicoms
      then Ok tt
      else Raise (ConversionValidationError "IMAGE_ORIENTATION_INCONSISTENT")
  end.

(** Modelled from the spec: common.validate_orthogonal is not in the
    sources (4.4: "the two orientation vectors must be mutually
    perpendicular within tolerance"); read on the first slice, with the
    tolerance of section 3 on the inner product. *)
Definition ref_validate_orthogonal (dicoms : list dicom) : result unit :=
  match dicoms with
  | [] => Raise IndexError
  | first :: _ =>
      let '(row, column) := ImageOrientationPatient first in
      if isclose (1 # 1000) (1 # 1000) (dot row column) 0
      then Ok tt
      else Raise (ConversionValidationError "NON_CUBICAL_IMAGE/GANTRY_TILT")
  end.

(** The signed projection of the position on the normal of the slice. *)
Definition projection (d : dicom) : Q :=
  let '(row, column) := ImageOrientationPatient d in
  dot (ImagePositionPatient d) (cross row column).

Fixpoint insert_slice (d : dicom) (sorted : list dicom) : list dicom :=
  match sorted with
  | [] => [d]
  | d' :: rest =>
      if Qle_bool (projection d) (projection d')
      then d :: d' :: rest
      else d' :: insert_slice d rest
  end.

(** Modelled from the spec: common.sort_dicoms is not in the sources (4.5:
    ascending by the signed projection, ties keep their order). *)
Definition ref_sort_dicoms (dicoms : list dicom) : result (list dicom) :=
  Ok (fold_right insert_slice [] dicoms).

(** Modelled from the spec: common.is_slice_increment_inconsistent is not
    in the sources (4.6: consistent when "every consecutive displacement
    matches the first displacement within tolerance", relative 0.05,
    absolute 0.1; undefined below two slices, section 9). *)
Definition ref_is_slice_increment_inconsistent (dicoms : list dicom)
  : result bool :=
  match displacements dicoms with
  | [] => Raise IndexError
  | first :: _ =>
      Ok (negb (forallb (allclose (5 # 100) (1 # 10) first)
                        (displacements dicoms)))
  end.

(** Modelled from the spec: common.validate_slice_increment is not in the
    sources (4.4: the increment check, a validation failure when it is
    violated). *)
Definition ref_validate_slice_increment (dicoms : list dicom) : result unit :=
  inconsistent <- ref_is_slice_increment_inconsistent dicoms ;;
  if (inconsistent : bool)
  then Raise (ConversionValidationError "SLICE_INCREMENT_INCONSISTENT")
  else Ok tt.

(** Modelled from the spec: common.get_volume_pixeldata is not in the
    sources (4.8: the pixel grids stacked in slice order; the transposition
    to x, y, z is a relabelling of indices and is not carried out). *)
Definition ref_get_volume_pixeldata (dicoms : list dicom)
  : result (list pixels) :=
  match dicoms with
  | [] => Raise IndexError
  | _ => Ok (map pixel_array dicoms)
  end.

Record ref_affine : Type := mkAffine {
  origin : vec3;
  row_cosine : vec3;
  column_cosine : vec3;
  pixel_spacing : Q * Q;
  step : vec3
}.

(** Modelled from the spec: common.create_affine is not in the sources
    (4.8: the affine from "the first slice's position, its orientation
    vectors, the pixel spacing, and the consistent inter-slice
    displacement"; 4.6: with it the largest norm of a consecutive
    displacement). *)
Definition ref_create_affine (dicoms : list dicom) : result (ref_affine * real) :=
  match dicoms with
  | first :: second :: _ =>
      Ok (mkAffine (ImagePositionPatient first)
                   (fst (ImageOrientationPatient first))
                   (snd (ImageOrientationPatient first))
                   (PixelSpacing first)
                   (vsub (ImagePositionPatient second) (ImagePositionPatient first)),
          max_norm (displacements dicoms))
  | _ => Raise IndexError
  end.

(** A volume, as the record of how it was built. *)
#[warnings="-register-all"]
Inductive ref_nifti : Type :=
| Image (data : list pixels) (affine_ : ref_affine) (tr_te : option (Q * Q))
| Resampled (parts : list ref_nifti) (voxel_size : zooms) (tr_te : option (Q * Q)).

Definition ref_set_tr_te (nii : ref_nifti) (tr te : Q) : ref_nifti :=
  match nii with
  | Image data affine_ _ => Image data affine_ (Some (tr, te))
  | Resampled parts voxel_size _ => Resampled parts voxel_size (Some (tr, te))
  end.

(** The voxel sizes: the lengths of the three columns of the affine. *)
Definition ref_get_zooms (nii : ref_nifti) : zooms :=
  match nii with
  | Image _ a _ =>
      (Sqrt (dot (row_cosine a) (row_cosine a)
             * (fst (pixel_spacing a) * fst (pixel_spacing a))),
       Sqrt (dot (column_cosine a) (column_cosine a)
             * (snd (pixel_spacing a) * snd (pixel_spacing a))),
       norm (step a))
  | Resampled _ voxel_size _ => voxel_size
  end.

Fixpoint insert_real (x : real) (sorted : list real) : list real :=
  match sorted with
  | [] => [x]
  | y :: rest =>
      if Qle_bool (radicand x) (radicand y)
      then x :: y :: rest
      else y :: insert_real x rest
  end.

(** [numpy.percentile(a, q)], linear interpolation: position
    [q / 100 * (n - 1)] in the sorted samples, between the sample below
    it and the next one. *)
Definition ref_percentile (a : list real) (q : Q) : number :=
  let sorted := fold_right insert_real [] a in
  let n := List.length a in
  let position := q / 100 * (Z.of_nat n - 1 # 1) in
  let below := Z.to_nat (Qfloor position) in
  mkNumber (nth below sorted (real_of_Q 0))
           (nth (Nat.min (below + 1) (n - 1)) sorted (real_of_Q 0))
           (position - (Qfloor position # 1)).

(** [floor (sqrt q)] for [q >= 0]. *)
Definition floor_sqrt (q : Q) : Z :=
  (Z.sqrt (Qnum q * Zpos (Qden q)) / Zpos (Qden q))%Z.

(** The order of [u * sqrt a + v * sqrt b] and [c], for non-negative
    [u], [v], [a], [b] and [c]: squaring twice. *)
Definition compare_sum (u a v b c : Q) : comparison :=
  let e := c * c - u * u * a - v * v * b in
  if Qle_bool 0 e
  then 4 * u * u * v * v * a * b ?= e * e
  else Gt.

Definition decimal (z : Z) : string :=
  DecimalString.NilZero.string_of_uint (N.to_uint (Z.to_N z)).

(** ['%.5f' % x]: [x * 10^5] rounded to the nearest integer, ties to even,
    printed with five decimals.  With [x = u * sqrt a + v * sqrt b],
    [floor (x * 10^5)] is [low] or [low + 1]. *)
Definition ref_format_5f (x : number) : string :=
  let u := 1 - fraction x in
  let a := radicand (lower x) in
  let v := fraction x in
  let b := radicand (upper x) in
  let scale := (10 ^ 5)%Z in
  let low := (floor_sqrt ((scale # 1) * (scale # 1) * u * u * a)
              + floor_sqrt ((scale # 1) * (scale # 1) * v * v * b))%Z in
  let floor_ :=
    match compare_sum u a v b ((low + 1 # 1) / (scale # 1)) with
    | Lt => low
    | _ => (low + 1)%Z
    end in
  let n :=
    match compare_sum u a v b ((2 * floor_ + 1 # 1) / (2 * scale # 1)) with
    | Lt => floor_
    | Gt => (floor_ + 1)%Z
    | Eq => if Z.even floor_ then floor_ else (floor_ + 1)%Z
    end in
  decimal (n / scale)
  ++ "."
  ++ String.substring 1 5 (decimal (scale + n mod scale)).

(** Modelled from the spec: resample.resample_nifti_images is not in the
    sources (6: "accepts an ordered list of Volumes and a target voxel
    spacing triple; returns one merged Volume"). *)
Definition ref_resample_nifti_images (niftis : list ref_nifti) (voxel_size : zooms)
  : result ref_nifti :=
  Ok (Resampled niftis voxel_size None).

Definition reference : collaborators :=
  mkCollaborators
    ref_validate_slicecount ref_validate_orientation ref_validate_orthogonal
    ref_sort_dicoms ref_validate_slice_increment
    ref_is_slice_increment_inconsistent
    ref_get_volume_pixeldata ref_create_affine ref_set_tr_te
    (fun data affine_ => Image data affine_ None) ref_get_zooms
    ref_percentile ref_format_5f
    ref_resample_nifti_images.

(** ** Example series *)

(** An axial slice at position [(0, 0, z)]. *)
Definition slice_at (z : Q) : dicom :=
  mkDicom (0, 0, z) ((1, 0, 0), (0, 1, 0)) [[0%Z]] "CT" None None None (1, 1).

Definition all_off : settings.t := settings.mk false false false false false.
Definition resample_only : settings.t := settings.mk false false false false true.

(** The four-slice series 0, 5, 6, 7: one displacement of 5, then two
    of 1. *)
Definition late_start : list dicom := map slice_at [0; 5; 6; 7].

(** Its conversion by the reference collaborators: the runs [0, 5] and
    [5, 6, 7], resampled to the voxel size of the second. *)
Definition late_start_volume : ref_nifti :=
  Resampled
    [Image [[[0%Z]]; [[0%Z]]]
           (mkAffine (0, 0, 0) (1, 0, 0) (0, 1, 0) (1, 1) (0, 0, 5)) None;
     Image [[[0%Z]]; [[0%Z]]; [[0%Z]]]
           (mkAffine (0, 0, 5) (1, 0, 0) (0, 1, 0) (1, 1) (0, 0, 1)) None]
    (Sqrt 1, Sqrt 1, Sqrt 1) None.

(** Three slices at one position: the second and third carry the same
    pixels, the first other ones. *)
Definition echo (value : Z) : dicom :=
  mkDicom (0, 0, 0) ((1, 0, 0), (0, 1, 0)) [[value]] "MR" None None None (1, 1).

Definition repeated_echo : list dicom := [echo 1; echo 2; echo 2].

(** A projection image of an optical coherence tomography series. *)
Definition oct_projection : dicom :=
  mkDicom (0, 0, 0) ((1, 0, 0), (0, 1, 0)) [[0%Z]] "OCT"
          (Some ["ORIGINAL"; "PRIMARY"; "PROJECTION IMAGE"]) None None (1, 1).

(** An axial and a sagittal slice. *)
Definition sagittal : dicom :=
  mkDicom (0, 0, 0) ((0, 1, 0), (0, 0, 1)) [[0%Z]] "CT" None None None (1, 1).

Definition two_orientations : list dicom := [slice_at 0; sagittal].

(** A scout image, and the settings with the slice count validation
    alone. *)
Definition scout : dicom :=
  mkDicom (0, 0, 0) ((1, 0, 0), (0, 0, 1)) [[0%Z]] "CT"
          (Some ["ORIGINAL"; "PRIMARY"; "LOCALIZER"]) None None (1, 1).

Definition slicecount_only : settings.t :=
  settings.mk true false false false false.

(** A slice with both timing values. *)
Definition timed (z : Q) : dicom :=
  mkDicom (0, 0, z) ((1, 0, 0), (0, 1, 0)) [[0%Z]] "MR" None
          (Some 2000) (Some 30) (1, 1).

(** ** The statements of the specification *)

(** The last slice of a run. *)
Definition last_slice (run : list dicom) : option dicom :=
  match run with
  | [] => None
  | d :: rest => Some (last rest d)
  end.

(** Consecutive runs share their boundary slice. *)
Fixpoint boundaries_shared (runs : list (list dicom)) : Prop :=
  match runs with
  | earlier :: ((later :: _) as rest) =>
      (exists d, last_slice earlier = Some d /\ hd_error later = Some d)
      /\ boundaries_shared rest
  | _ => True
  end.

(** 4.1, any prior slice: a slice is a duplicate when an earlier slice
    has its position key and equal pixels. *)
Definition duplicate_of (earlier : list dicom) (d : dicom) : bool :=
  existsb (fun e => vec3_eqb (ImagePositionPatient e) (ImagePositionPatient d)
                    && array_equal (pixel_array d) (pixel_array e))
          earlier.

(** 4.1, the prior slice the code looks at: the first slice at the
    position. *)
Definition first_at (earlier : list dicom) (position : vec3) : option dicom :=
  find (fun e => vec3_eqb (ImagePositionPatient e) position) earlier.

Definition duplicate_of_first (earlier : list dicom) (d : dicom) : bool :=
  match first_at earlier (ImagePositionPatient d) with
  | Some first => array_equal (pixel_array d) (pixel_array first)
  | None => false
  end.

(** The series [rest] without the duplicates of first slices, [earlier]
    being the slices before it. *)
Fixpoint without_duplicates (earlier rest : list dicom) : list dicom :=
  match rest with
  | [] => []
  | d :: rest' =>
      (if duplicate_of_first earlier d then [] else [d])
      ++ without_duplicates (earlier ++ [d]) rest'
  end.

(** 4.2: the localizer marker, or modality CT with the projection image
    marker. *)
Definition localizer_by_imagetype (d : dicom) : bool :=
  has_image_type "LOCALIZER" d
  || (String.eqb (Modality d) "CT" && has_image_type "PROJECTION IMAGE" d).

(** What the code tests: "CT" occurs in the modality. *)
Definition dropped_by_imagetype (d : dicom) : bool :=
  has_image_type "LOCALIZER" d
  || (in_str "CT" (Modality d) && has_image_type "PROJECTION IMAGE" d).

(** Greedy tolerance clustering in the words of the specification
    (sections 3 and 4.3): the first slice seen with an orientation that
    matches no earlier representative establishes a new group; a slice
    belongs to the first group whose representative it matches. *)
Definition add_representative (representatives : list orientation) (d : dicom)
  : list orientation :=
  if existsb (orientation_close (ImageOrientationPatient d)) representatives
  then representatives
  else representatives ++ [ImageOrientationPatient d].

Definition representatives (dicoms : list dicom) : list orientation :=
  fold_left add_representative dicoms [].

(** The slice belongs to the group of the first representative it
    matches. *)
Definition belongs (representatives : list orientation) (r : orientation)
           (d : dicom) : bool :=
  match find (orientation_close (ImageOrientationPatient d)) representatives with
  | Some first => str_eqb first r
  | None => false
  end.

(** The groups, in the order of their first slices; each is the input
    filtered, so the slices of a group keep their order. *)
Definition orientation_groups (dicoms : list dicom) : list (list dicom) :=
  map (fun r => filter (belongs (representatives dicoms) r) dicoms)
      (representatives dicoms).

Definition at_least_4 (group : list dicom) : bool :=
  (4 <=? List.length group)%nat.

(** 4.7 in the words of the specification: the volume of a run, its
    voxel-spacing value, and the pooled samples, one copy of the value of
    a run per internal displacement. *)
Definition run_volume (C : collaborators) (run : list dicom) : result (nifti C) :=
  data <- get_volume_pixeldata C run ;;
  '(affine_, _) <- create_affine C run ;;
  Ok (Nifti1Image C data affine_).

Definition run_spacing (C : collaborators) (volume : nifti C) : real :=
  norm_zooms (get_zooms C volume).

(** The dictionary key of a run volume: its spacing value with five
    decimals. *)
Definition spacing_key (C : collaborators) (volume : nifti C) : string :=
  format_5f C (exactly (run_spacing C volume)).

Definition pooled_spacings (C : collaborators) (runs : list (list dicom))
           (volumes : list (nifti C)) : list real :=
  flat_map (fun rv => repeat (run_spacing C (snd rv)) (List.length (fst rv) - 1))
           (combine runs volumes).

(** The condition of the split-and-resample path (4.9). *)
Definition split_and_resample (C : collaborators) (cfg : settings.t)
           (sorted : list dicom) : Prop :=
  settings.validate_slice_increment cfg = false
  /\ is_slice_increment_inconsistent C sorted = Ok true
  /\ settings.resample cfg = true.

(** ** Statements about the runs *)

(** The runs put together again: every run after the first without its
    first slice, the boundary it shares with the run before. *)
Definition rejoin (runs : list (list dicom)) : list dicom :=
  match runs with
  | [] => []
  | first :: rest => first ++ flat_map (@tl dicom) rest
  end.

(** The reference displacement of a run: that of its first two slices. *)
Definition reference_increment (run : list dicom) : option vec3 :=
  hd_error (displacements run).

(** Every displacement of the run after the first matches the first. *)
Definition consistent_run (run : list dicom) : Prop :=
  match displacements run with
  | [] => False
  | first :: others =>
      Forall (fun v => allclose (5 # 100) (1 # 10) first v = true) others
  end.

(** A run ends where the next displacement does not match its reference. *)
Fixpoint maximal_runs (runs : list (list dicom)) : Prop :=
  match runs with
  | earlier :: ((later :: _) as rest) =>
      (exists reference next,
          reference_increment earlier = Some reference
          /\ reference_increment later = Some next
          /\ allclose (5 # 100) (1 # 10) reference next = false)
      /\ maximal_runs rest
  | _ => True
  end.

(** What the loop of the split keeps beyond [split_invariant]: the runs
    rejoin to the slices seen, the reference increment is that of the
    current run, the previous position that of its last slice, and the
    runs are consistent and maximal. *)
Definition split_progress (seen : list dicom) (st : split_state) : Prop :=
  rejoin (slice_incement_groups st ++ [current_group st]) = seen
  /\ reference_increment (current_group st) = Some (increment st)
  /\ option_map ImagePositionPatient (last_slice (current_group st))
     = Some (previous_image_position st)
  /\ Forall consistent_run (slice_incement_groups st ++ [current_group st])
  /\ maximal_runs (slice_incement_groups st ++ [current_group st]).

(** ** Invariants of the loops *)

(** What every iteration keeps: the current run has two slices at least,
    so have the closed runs, and the runs, the current one last, share
    their boundaries. *)
Definition split_invariant (st : split_state) : Prop :=
  (2 <= List.length (current_group st))%nat
  /\ Forall (fun run => (2 <= List.length run)%nat) (slice_incement_groups st)
  /\ boundaries_shared (slice_incement_groups st ++ [current_group st]).

(** The dictionary of the duplicate filter holds, for every position, the
    first of the slices seen there. *)
Definition dict_tracks (dicoms_dict : list (vec3 * dicom)) (earlier : list dicom)
  : Prop :=
  forall position,
    dict_get vec3_eqb dicoms_dict position = first_at earlier position.

(** No two representatives have the same key. *)
Fixpoint distinct_keys (reps : list orientation) : Prop :=
  match reps with
  | [] => True
  | r :: rest => (forall r', In r' rest -> str_eqb r r' = false) /\ distinct_keys rest
  end.

(** The state of the orientation loop after the slices [dicoms]: the
    representatives, and under the key of each its group. *)
Definition clustered (dicoms : list dicom) : orientation_state :=
  mkOrient (representatives dicoms)
           (map (fun r => (r, filter (belongs (representatives dicoms) r) dicoms))
                (representatives dicoms)).

(** The keys are distinct and every slice matches a representative. *)
Definition orientation_invariant (dicoms : list dicom) : Prop :=
  distinct_keys (representatives dicoms)
  /\ Forall (fun d => find (orientation_close (ImageOrientationPatient d))
                          (representatives dicoms) <> None)
            dicoms.

(** * Theorems *)

Unset Implicit Arguments.

(** A sequence of steps that returns has returned at each step. *)
Lemma bind_ok {A B : Type} (m : result A) (k : A -> result B) (b : B) :
  bind m k = Ok b -> exists a, m = Ok a /\ k a = Ok b.
Proof.
  destruct m as [a|e]; cbn; [|discriminate]. intro run. now exists a.
Qed.

(** ** The split *)

(** C1: for five sorted slices at 0, 1, 2, 4, 5 along the normal axis the
    split produces the three runs [0,1,2], [2,4], [4,5], which share the
    slices at 2 and at 4, and returns 2 as the maximum displacement. *)
Theorem split_literal_scenario (d0 d1 d2 d4 d5 : dicom)
  (positions : map ImagePositionPatient [d0; d1; d2; d4; d5]
               = [(0, 0, 0); (0, 0, 1); (0, 0, 2); (0, 0, 4); (0, 0, 5)]) :
  split_slice_increments [d0; d1; d2; d4; d5]
  = Ok ([[d0; d1; d2]; [d2; d4]; [d4; d5]], real_of_Q 2).
Proof.
  destruct d0, d1, d2, d4, d5; cbn in positions.
  injection positions as -> -> -> -> ->.
  vm_compute. reflexivity.
Qed.

(** The scenario is met by the axial slices at 0, 1, 2, 4, 5. *)
Lemma split_literal_scenario_witness :
  split_slice_increments (map slice_at [0; 1; 2; 4; 5])
  = Ok ([map slice_at [0; 1; 2]; map slice_at [2; 4]; map slice_at [4; 5]],
        real_of_Q 2).
Proof.
  apply (split_literal_scenario (slice_at 0) (slice_at 1) (slice_at 2)
                                (slice_at 4) (slice_at 5)).
  reflexivity.
Defined.

(** *** The loop invariant of the split *)

Lemma last_cons (rest : list dicom) (d0 d : dicom) :
  last (d0 :: rest) d = last rest d0.
Proof.
  revert d0 d. induction rest as [|d1 rest IH]; intros d0 d; [reflexivity|].
  change (last (d1 :: rest) d = last (d1 :: rest) d0).
  now rewrite !IH.
Qed.

Lemma last_slice_last (run : list dicom) (d : dicom) :
  run <> [] -> last_slice run = Some (last run d).
Proof.
  destruct run as [|d0 rest]; [congruence|]. intros _.
  cbn [last_slice]. now rewrite last_cons.
Qed.

Lemma boundaries_shared_snoc (runs : list (list dicom)) (run next : list dicom) :
  boundaries_shared (runs ++ [run]) ->
  (exists d, last_slice run = Some d /\ hd_error next = Some d) ->
  boundaries_shared ((runs ++ [run]) ++ [next]).
Proof.
  intros shared boundary.
  induction runs as [|r0 runs IH]; cbn [app boundaries_shared] in *.
  - split; [exact boundary | exact I].
  - destruct runs as [|r1 runs]; cbn [app] in *.
    + destruct shared as [b _]. repeat split; assumption.
    + destruct shared as [b rest]. split; [exact b | exact (IH rest)].
Qed.

Lemma boundaries_shared_grow (runs : list (list dicom)) (run : list dicom)
      (d : dicom) :
  run <> [] ->
  boundaries_shared (runs ++ [run]) ->
  boundaries_shared (runs ++ [run ++ [d]]).
Proof.
  intros nonempty shared.
  induction runs as [|r0 runs IH]; cbn [app boundaries_shared] in *.
  - exact I.
  - destruct runs as [|r1 runs]; cbn [app] in *.
    + destruct shared as [(b & l & h) _]. split; [|exact I].
      exists b. split; [exact l|].
      destruct run; [congruence | exact h].
    + destruct shared as [b rest]. split; [exact b | exact (IH rest)].
Qed.

Lemma split_step_invariant (st : split_state) (d : dicom) :
  split_invariant st -> split_invariant (split_step st d).
Proof.
  intros (long & closed & shared).
  assert (nonempty : current_group st <> []).
  { destruct (current_group st); cbn in long; [lia | congruence]. }
  unfold split_step.
  destruct (allclose _ _ (increment st) _); cbn [negb];
    unfold split_invariant;
    cbn [current_group slice_incement_groups].
  - repeat split.
    + rewrite length_app. cbn. lia.
    + exact closed.
    + apply boundaries_shared_grow; assumption.
  - repeat split.
    + cbn. lia.
    + apply Forall_app. split; [exact closed|]. constructor; [exact long|constructor].
    + apply boundaries_shared_snoc; [exact shared|].
      exists (last (current_group st) d). split.
      * apply last_slice_last, nonempty.
      * reflexivity.
Qed.

Lemma split_loop_invariant (rest : list dicom) (st : split_state) :
  split_invariant st -> split_invariant (split_loop st rest).
Proof.
  revert st. induction rest as [|d rest IH]; intros st inv; [exact inv|].
  apply IH, split_step_invariant, inv.
Qed.

(** [current_group[-1]] never fails. *)
Lemma split_loop_current_group (d0 d1 : dicom) (rest : list dicom) :
  current_group (split_loop (split_init d0 d1) rest) <> [].
Proof.
  destruct (split_loop_invariant rest (split_init d0 d1)) as (long & _).
  - repeat split; cbn; auto.
  - destruct (current_group _); cbn in long; [lia | congruence].
Qed.

(** C2: on a series of two slices or more the split returns, every run it
    returns has at least two slices, and the last slice of a run is the
    first slice of the next run. *)
Theorem split_runs_share_boundaries (dicom_input : list dicom)
  (two_slices : (2 <= List.length dicom_input)%nat) :
  exists runs maximum,
    split_slice_increments dicom_input = Ok (runs, maximum)
    /\ Forall (fun run => (2 <= List.length run)%nat) runs
    /\ boundaries_shared runs.
Proof.
  destruct dicom_input as [|d0 [|d1 rest]]; cbn in two_slices; try lia.
  destruct (split_loop_invariant rest (split_init d0 d1))
    as (long & closed & shared).
  { repeat split; cbn; auto. }
  cbn [split_slice_increments].
  eexists _, _. split; [reflexivity|]. split.
  - apply Forall_app. split; [exact closed|]. constructor; [exact long|constructor].
  - exact shared.
Qed.

Lemma split_runs_share_boundaries_witness :
  exists runs maximum,
    split_slice_increments (map slice_at [0; 1; 2; 4; 5]) = Ok (runs, maximum)
    /\ Forall (fun run => (2 <= List.length run)%nat) runs
    /\ boundaries_shared runs.
Proof.
  apply (split_runs_share_boundaries (map slice_at [0; 1; 2; 4; 5])).
  cbn. lia.
Defined.

(** *** The maximum displacement *)

(** The maximum the split returns covers the displacements from the
    second slice on: the loop starts at the third slice with maximum 0. *)
Lemma split_loop_maximum (rest : list dicom) (st : split_state) (previous : dicom) :
  previous_image_position st = ImagePositionPatient previous ->
  max_slice_increment (split_loop st rest)
  = fold_left (fun m v => py_max m (norm v)) (displacements (previous :: rest))
              (max_slice_increment st).
Proof.
  revert st previous.
  induction rest as [|d rest IH]; intros st previous position; [reflexivity|].
  cbn [split_loop fold_left displacements].
  change (fold_left split_step rest (split_step st d))
    with (split_loop (split_step st d) rest).
  rewrite (IH (split_step st d) d).
  - f_equal. unfold split_step. rewrite position.
    destruct (negb _); reflexivity.
  - unfold split_step. destruct (negb _); reflexivity.
Qed.

Lemma split_maximum (d0 d1 : dicom) (rest : list dicom) :
  exists runs,
    split_slice_increments (d0 :: d1 :: rest)
    = Ok (runs, max_norm (displacements (d1 :: rest))).
Proof.
  cbn [split_slice_increments]. eexists. do 2 f_equal.
  apply split_loop_maximum. reflexivity.
Qed.

(** C4: on the series 0, 5, 6, 7 the conversion takes the split path and
    returns 1 as the maximum displacement, while the displacement of the
    first two slices, the largest of the series, is 5. *)
Theorem first_displacement_not_counted :
  ref_is_slice_increment_inconsistent late_start = Ok true
  /\ (out <- dicom_to_nifti reference resample_only late_start None ;;
      Ok (MAX_SLICE_INCREMENT out)) = Ok (real_of_Q 1)
  /\ (converted <- _convert_slice_incement_inconsistencies reference late_start ;;
      Ok (snd converted)) = Ok (real_of_Q 1)
  /\ max_norm (displacements late_start) = real_of_Q 5.
Proof.
  repeat split; vm_compute; reflexivity.
Qed.

(** *** The target voxel spacing *)

Lemma dict_get_set {V : Type} (d : list (string * V)) (k k' : string) (v : V) :
  dict_get String.eqb (dict_set String.eqb d k v) k'
  = if String.eqb k k' then Some v else dict_get String.eqb d k'.
Proof.
  induction d as [|[k0 v0] d IH]; cbn [dict_set dict_get]; [reflexivity|].
  destruct (String.eqb_spec k0 k) as [-> | differs]; cbn [dict_get].
  - now destruct (String.eqb k k').
  - rewrite IH. destruct (String.eqb_spec k0 k') as [-> | _]; [|reflexivity].
    destruct (String.eqb_spec k k'); [congruence | reflexivity].
Qed.

(** The loop over the runs: one volume per run, the pooled samples, and
    a dictionary in which a key holds the voxel size of the last volume
    with that key, or else what it held before. *)
Lemma volume_loop (C : collaborators) (runs : list (list dicom))
      (st0 st : volumes_state C) :
  for_each (@volume_step C) runs st0 = Ok st ->
  exists volumes,
    Forall2 (fun run v => run_volume C run = Ok v) runs volumes
    /\ slice_incement_niftis st = slice_incement_niftis st0 ++ volumes
    /\ slice_increments st = slice_increments st0 ++ pooled_spacings C runs volumes
    /\ forall k z,
         dict_get String.eqb (voxel_sizes st) k = Some z ->
         (Forall (fun v => spacing_key C v <> k) volumes
          /\ dict_get String.eqb (voxel_sizes st0) k = Some z)
         \/ exists before chosen after,
              volumes = before ++ chosen :: after
              /\ spacing_key C chosen = k
              /\ get_zooms C chosen = z
              /\ Forall (fun v => spacing_key C v <> k) after.
Proof.
  revert st0. induction runs as [|run runs IH]; intros st0 loop; cbn [for_each] in loop.
  - injection loop as <-. exists []. repeat split.
    + constructor.
    + now rewrite app_nil_r.
    + unfold pooled_spacings. cbn. now rewrite app_nil_r.
    + intros k z found. left. now split.
  - apply bind_ok in loop as (st1 & step & loop).
    unfold volume_step in step.
    apply bind_ok in step as (data & pixeldata & step).
    apply bind_ok in step as ([affine_ m] & created & [= <-]).
    apply IH in loop as (volumes & built & niftis & samples & entries).
    cbn [slice_incement_niftis slice_increments voxel_sizes] in *.
    set (volume := Nifti1Image C data affine_) in *.
    exists (volume :: volumes). repeat split.
    + constructor; [|exact built].
      unfold run_volume. rewrite pixeldata. cbn [bind]. now rewrite created.
    + now rewrite niftis, <- app_assoc.
    + rewrite samples, <- app_assoc. reflexivity.
    + intros k z found.
      apply entries in found
        as [[others found] | (before & chosen & after & -> & key & size & last)].
      * rewrite dict_get_set in found.
        change (format_5f C (exactly (norm_zooms (get_zooms C volume))))
          with (spacing_key C volume) in found.
        destruct (String.eqb_spec (spacing_key C volume) k) as [key | other].
        -- injection found as <-. right. now exists [], volume, volumes.
        -- left. split; [now constructor | exact found].
      * right. now exists (volume :: before), chosen, after.
Qed.

(** When the split conversion returns, the voxel size handed to the
    resampler is the voxel size of the last run volume with the key of the
    10th percentile of the pooled samples. *)
Lemma voxel_size_selection (C : collaborators) (dicom_input : list dicom)
      (nii : nifti C) (maximum : real) :
  _convert_slice_incement_inconsistencies C dicom_input = Ok (nii, maximum) ->
  exists runs before chosen after,
    let volumes := before ++ chosen :: after in
    let target := format_5f C (percentile C (pooled_spacings C runs volumes) 10) in
    split_slice_increments dicom_input = Ok (runs, maximum)
    /\ Forall2 (fun run v => run_volume C run = Ok v) runs volumes
    /\ spacing_key C chosen = target
    /\ Forall (fun v => spacing_key C v <> target) after
    /\ resample_nifti_images C volumes (get_zooms C chosen) = Ok nii.
Proof.
  intro returns.
  unfold _convert_slice_incement_inconsistencies in returns.
  apply bind_ok in returns as ([runs m] & split & returns).
  apply bind_ok in returns as (st & loop & returns).
  apply bind_ok in returns as (voxel_size & selected & returns).
  apply bind_ok in returns as (merged & resampled & [= <- <-]).
  apply volume_loop in loop as (volumes & built & niftis & samples & entries).
  cbn in niftis, samples, entries.
  unfold dict_item in selected.
  destruct (dict_get String.eqb (voxel_sizes st) _) as [z|] eqn:found;
    [|discriminate].
  injection selected as ->.
  apply entries in found
    as [[_ found] | (before & chosen & after & -> & key & <- & last)];
    [discriminate|].
  rewrite samples in key, last. rewrite niftis in resampled.
  exists runs, before, chosen, after. cbn zeta. repeat split; assumption.
Qed.

(** C3: when the split conversion returns, the voxel size handed to the
    resampler is the voxel size of one of the run volumes, a run whose
    spacing value prints with five decimals as the 10th percentile of the
    pooled samples does; the pool holds the value of each run once per
    internal displacement. *)
Theorem target_voxel_spacing (C : collaborators) (dicom_input : list dicom)
        (nii : nifti C) (maximum : real)
  (returns : _convert_slice_incement_inconsistencies C dicom_input
             = Ok (nii, maximum)) :
  exists runs volumes chosen,
    split_slice_increments dicom_input = Ok (runs, maximum)
    /\ Forall2 (fun run v => run_volume C run = Ok v) runs volumes
    /\ In chosen volumes
    /\ format_5f C (exactly (run_spacing C chosen))
       = format_5f C (percentile C (pooled_spacings C runs volumes) 10)
    /\ resample_nifti_images C volumes (get_zooms C chosen) = Ok nii.
Proof.
  apply voxel_size_selection in returns
    as (runs & before & chosen & after & split & built & key & _ & resampled).
  exists runs, (before ++ chosen :: after), chosen.
  repeat split; try assumption.
  apply in_app_iff. right. now left.
Qed.

Lemma target_voxel_spacing_witness :
  exists runs volumes chosen,
    split_slice_increments late_start = Ok (runs, Sqrt 1)
    /\ Forall2 (fun run v => run_volume reference run = Ok v) runs volumes
    /\ In chosen volumes
    /\ format_5f reference (exactly (run_spacing reference chosen))
       = format_5f reference
           (percentile reference (pooled_spacings reference runs volumes) 10)
    /\ resample_nifti_images reference volumes (get_zooms reference chosen)
       = Ok late_start_volume.
Proof.
  apply (target_voxel_spacing reference late_start late_start_volume (Sqrt 1)).
  reflexivity.
Defined.

(** ** The duplicate filter *)

(** C6: of three slices at one position, the third with the pixels of the
    second and not of the first, the filter keeps all three: the third is
    compared with the first slice only, though it is a duplicate of the
    second. *)
Theorem duplicate_of_second_kept :
  _remove_duplicate_slices repeated_echo = repeated_echo
  /\ duplicate_of [echo 1; echo 2] (echo 2) = true.
Proof. split; reflexivity. Qed.

(** *** What the filter does *)

Lemma vec3_eqb_trans (a b c : vec3) :
  vec3_eqb a b = true -> vec3_eqb b c = true -> vec3_eqb a c = true.
Proof.
  destruct a as [[a0 a1] a2], b as [[b0 b1] b2], c as [[c0 c1] c2].
  unfold vec3_eqb. rewrite !andb_true_iff.
  intros [[ab0 ab1] ab2] [[bc0 bc1] bc2].
  repeat split; eapply Qeq_bool_trans; eassumption.
Qed.

Section Dictionary.
Context {K V : Type} (eqb : K -> K -> bool).

Lemma dict_set_missing (d : list (K * V)) (k : K) (v : V) :
  dict_get eqb d k = None -> dict_set eqb d k v = d ++ [(k, v)].
Proof.
  induction d as [|[k0 v0] d IH]; cbn [dict_get dict_set app]; [reflexivity|].
  destruct (eqb k0 k); [discriminate|]. intro missing. now rewrite IH.
Qed.

Lemma dict_get_app (d1 d2 : list (K * V)) (k : K) :
  dict_get eqb (d1 ++ d2) k
  = match dict_get eqb d1 k with
    | Some v => Some v
    | None => dict_get eqb d2 k
    end.
Proof.
  induction d1 as [|[k0 v0] d1 IH]; cbn [dict_get app]; [reflexivity|].
  destruct (eqb k0 k); [reflexivity | exact IH].
Qed.
End Dictionary.

Lemma find_app {A : Type} (f : A -> bool) (l1 l2 : list A) :
  find f (l1 ++ l2)
  = match find f l1 with Some x => Some x | None => find f l2 end.
Proof.
  induction l1 as [|x l1 IH]; cbn [app find]; [reflexivity|].
  destruct (f x); [reflexivity | exact IH].
Qed.

Lemma duplicate_step_tracks (dicoms_dict : list (vec3 * dicom))
      (filtered_dicoms earlier : list dicom) (d : dicom) :
  dict_tracks dicoms_dict earlier ->
  dict_tracks (fst (duplicate_step (dicoms_dict, filtered_dicoms) d))
              (earlier ++ [d])
  /\ snd (duplicate_step (dicoms_dict, filtered_dicoms) d)
     = filtered_dicoms ++ (if duplicate_of_first earlier d then [] else [d]).
Proof.
  intro tracks. unfold duplicate_step, duplicate_of_first.
  rewrite (tracks (ImagePositionPatient d)).
  destruct (first_at earlier (ImagePositionPatient d)) as [stored|] eqn:seen.
  - split.
    + assert (same : dict_tracks dicoms_dict (earlier ++ [d])).
      { intro position. rewrite tracks. unfold first_at in *.
        rewrite find_app.
        destruct (find (fun e => vec3_eqb (ImagePositionPatient e) position)
                       earlier) as [first|] eqn:there; [reflexivity|].
        cbn [find].
        destruct (vec3_eqb (ImagePositionPatient d) position) eqn:here;
          [|reflexivity].
        destruct (find_some _ _ seen) as [member at_d].
        pose proof (find_none _ _ there stored member) as away. cbn in away.
        now rewrite (vec3_eqb_trans _ _ _ at_d here) in away. }
      now destruct (array_equal _ _).
    + destruct (array_equal _ _); cbn [snd]; [now rewrite app_nil_r | reflexivity].
  - cbn [fst snd]. split; [|reflexivity].
    intro position.
    rewrite dict_set_missing by (now rewrite tracks).
    rewrite dict_get_app, tracks. unfold first_at. rewrite find_app.
    destruct (find (fun e => vec3_eqb (ImagePositionPatient e) position)
                   earlier); [reflexivity|].
    cbn [dict_get find]. now destruct (vec3_eqb _ position).
Qed.

Lemma duplicate_loop (rest earlier : list dicom)
      (dicoms_dict : list (vec3 * dicom)) (filtered_dicoms : list dicom) :
  dict_tracks dicoms_dict earlier ->
  snd (fold_left duplicate_step rest (dicoms_dict, filtered_dicoms))
  = filtered_dicoms ++ without_duplicates earlier rest.
Proof.
  revert earlier dicoms_dict filtered_dicoms.
  induction rest as [|d rest IH]; intros earlier dicoms_dict filtered_dicoms tracks;
    cbn [fold_left without_duplicates snd].
  - now rewrite app_nil_r.
  - destruct (duplicate_step_tracks dicoms_dict filtered_dicoms earlier d tracks)
      as [tracks' kept].
    destruct (duplicate_step (dicoms_dict, filtered_dicoms) d)
      as [dicoms_dict' filtered_dicoms'].
    cbn [fst snd] in *. rewrite (IH (earlier ++ [d])) by exact tracks'.
    now rewrite kept, app_assoc.
Qed.

(** X8: the filter keeps the order and drops exactly the slices with the
    pixels of the first slice at their position. *)
Lemma remove_duplicate_slices_first (dicoms : list dicom) :
  _remove_duplicate_slices dicoms = without_duplicates [] dicoms.
Proof.
  unfold _remove_duplicate_slices.
  rewrite (duplicate_loop dicoms []); [reflexivity|].
  intro position. reflexivity.
Qed.

(** Two slices at one position with different pixels are both kept, and
    a copy of the first slice at a position is dropped. *)
Lemma different_pixels_kept :
  _remove_duplicate_slices [echo 1; echo 2] = [echo 1; echo 2]
  /\ _remove_duplicate_slices [echo 1; echo 2; echo 1] = [echo 1; echo 2].
Proof. split; reflexivity. Qed.

(** ** The image type filter *)

Lemma imagetype_step_filter (dicoms filtered_dicoms : list dicom) :
  fold_left imagetype_step dicoms filtered_dicoms
  = filtered_dicoms ++ filter (fun d => negb (dropped_by_imagetype d)) dicoms.
Proof.
  revert filtered_dicoms.
  induction dicoms as [|d dicoms IH]; intro filtered_dicoms; cbn [fold_left filter].
  - now rewrite app_nil_r.
  - rewrite IH. unfold imagetype_step, dropped_by_imagetype.
    destruct (has_image_type "LOCALIZER" d); cbn [orb negb]; [reflexivity|].
    destruct (in_str "CT" (Modality d) && has_image_type "PROJECTION IMAGE" d);
      cbn [negb]; [reflexivity|].
    now rewrite <- app_assoc.
Qed.

(** X11: the filter keeps, in their order, the slices the test of the
    code does not drop. *)
Lemma remove_localizers_by_imagetype_filter (dicoms : list dicom) :
  _remove_localizers_by_imagetype dicoms
  = filter (fun d => negb (dropped_by_imagetype d)) dicoms.
Proof. apply imagetype_step_filter. Qed.

(** Every slice that is a localizer by its image type is dropped. *)
Lemma localizer_by_imagetype_dropped (d : dicom) :
  localizer_by_imagetype d = true -> dropped_by_imagetype d = true.
Proof.
  unfold localizer_by_imagetype, dropped_by_imagetype.
  destruct (has_image_type "LOCALIZER" d); [reflexivity|]. cbn [orb].
  destruct (String.eqb_spec (Modality d) "CT") as [-> | _]; [|discriminate].
  intro marker. cbn in marker. now rewrite marker.
Qed.

(** C8: a projection image whose modality is OCT is no localizer by its
    image type (its modality is not CT), and the filter drops it: the
    modality is tested for containing "CT". *)
Theorem oct_projection_dropped :
  localizer_by_imagetype oct_projection = false
  /\ _remove_localizers_by_imagetype [oct_projection] = [].
Proof. split; reflexivity. Qed.

(** ** The conversion *)

(** C9: the conversion of the empty series raises
    ConversionError('NO_DICOM_FILES_FOUND'), whatever the settings and the
    collaborators: no stage has a say, and no volume is returned. *)
Theorem empty_input_fails (C : collaborators) (cfg : settings.t)
        (output_file : option string) :
  dicom_to_nifti C cfg [] output_file
  = Raise (ConversionError "NO_DICOM_FILES_FOUND").
Proof. reflexivity. Qed.

(** C7: a conversion that succeeds has taken the split-and-resample path
    exactly when the increment validation is off, the sorted series is
    inconsistent and resampling is on; otherwise its volume is the image
    of the pixel data and the affine of the whole sorted series. *)
Theorem conversion_path (C : collaborators) (cfg : settings.t)
        (dicom_input : list dicom) (output_file : option string)
        (out : conversion C)
  (succeeds : dicom_to_nifti C cfg dicom_input output_file = Ok out) :
  exists sorted nii,
    sorted_series C cfg dicom_input = Ok sorted
    /\ attach_tr_te C sorted nii = Ok (NII out)
    /\ ((split_and_resample C cfg sorted
         /\ _convert_slice_incement_inconsistencies C sorted
            = Ok (nii, MAX_SLICE_INCREMENT out))
        \/ (~ split_and_resample C cfg sorted
            /\ exists data affine_,
                 get_volume_pixeldata C sorted = Ok data
                 /\ create_affine C sorted = Ok (affine_, MAX_SLICE_INCREMENT out)
                 /\ nii = Nifti1Image C data affine_)).
Proof.
  unfold dicom_to_nifti in succeeds.
  apply bind_ok in succeeds as (sorted & series & succeeds).
  apply bind_ok in succeeds as (flag & flagged & succeeds).
  apply bind_ok in succeeds as ([nii maximum] & converted & succeeds).
  apply bind_ok in succeeds as (nii' & attached & succeeds).
  injection succeeds as <-. cbn [NII MAX_SLICE_INCREMENT].
  exists sorted, nii. split; [exact series|]. split; [exact attached|].
  unfold slice_increment_flag, split_and_resample in *.
  destruct (settings.validate_slice_increment cfg).
  - apply bind_ok in flagged as ([] & _ & [= <-]).
    right. split; [intros (off & _); discriminate|].
    cbn [andb] in converted. unfold direct_conversion in converted.
    apply bind_ok in converted as (data & pixeldata & converted).
    apply bind_ok in converted as ([affine_ m] & created & [= <- <-]).
    now exists data, affine_.
  - destruct flag, (settings.resample cfg); cbn [andb] in converted;
      try (left; now repeat split);
      (right; split;
       [ intros (_ & inconsistent & on); congruence
       | unfold direct_conversion in converted;
         apply bind_ok in converted as (data & pixeldata & converted);
         apply bind_ok in converted as ([affine_ m] & created & [= <- <-]);
         now exists data, affine_ ]).
Qed.

Lemma conversion_path_witness :
  exists sorted nii,
    sorted_series reference resample_only late_start = Ok sorted
    /\ attach_tr_te reference sorted nii
       = Ok late_start_volume
    /\ ((split_and_resample reference resample_only sorted
         /\ _convert_slice_incement_inconsistencies reference sorted
            = Ok (nii, Sqrt 1))
        \/ (~ split_and_resample reference resample_only sorted
            /\ exists data affine_,
                 get_volume_pixeldata reference sorted = Ok data
                 /\ create_affine reference sorted = Ok (affine_, Sqrt 1)
                 /\ nii = Nifti1Image reference data affine_)).
Proof.
  apply (conversion_path reference resample_only late_start None
           (mkConversion reference None late_start_volume (Sqrt 1))).
  reflexivity.
Defined.

(** ** The orientation filter *)

(** C10: the series of one axial and one sagittal slice is not empty, its
    two orientations make two groups of one slice each, and the filter
    returns the empty list. *)
Theorem orientation_filter_empties :
  exists dicoms : list dicom,
    dicoms <> []
    /\ (1 < List.length (orientation_groups dicoms))%nat
    /\ Forall (fun group => (List.length group < 4)%nat) (orientation_groups dicoms)
    /\ _remove_localizers_by_orientation dicoms = Ok [].
Proof.
  exists two_orientations. split; [discriminate|].
  split; [vm_compute; lia|]. split; [|reflexivity].
  vm_compute. repeat constructor.
Qed.

(** *** Keys and tolerance *)

Lemma isclose_eq (rtol atol a b : Q) :
  0 <= rtol -> 0 <= atol -> a == b -> isclose rtol atol a b = true.
Proof.
  intros rel abs same. unfold isclose. apply Qle_bool_iff.
  assert (zero : Qabs (a - b) == 0).
  { rewrite same. setoid_replace (b - b) with 0 by ring. reflexivity. }
  rewrite zero.
  pose proof (Qabs_nonneg b) as size.
  pose proof (Qmult_le_0_compat _ _ rel size) as scaled.
  lra.
Qed.

Lemma allclose_eq (rtol atol : Q) (a b : vec3) :
  0 <= rtol -> 0 <= atol -> vec3_eqb a b = true -> allclose rtol atol a b = true.
Proof.
  intros rel abs. destruct a as [[a0 a1] a2], b as [[b0 b1] b2].
  unfold vec3_eqb, allclose.
  rewrite !andb_true_iff, !Qeq_bool_iff.
  intros [[e0 e1] e2]. repeat split; now apply isclose_eq.
Qed.

Lemma vec3_eqb_refl (a : vec3) : vec3_eqb a a = true.
Proof.
  destruct a as [[a0 a1] a2]. unfold vec3_eqb.
  now rewrite !Qeq_bool_refl.
Qed.

Lemma vec3_eqb_sym (a b : vec3) : vec3_eqb a b = vec3_eqb b a.
Proof.
  destruct a as [[a0 a1] a2], b as [[b0 b1] b2]. unfold vec3_eqb.
  assert (sym : forall x y, Qeq_bool x y = Qeq_bool y x).
  { intros x y. destruct (Qeq_bool x y) eqn:xy, (Qeq_bool y x) eqn:yx;
      try reflexivity.
    - apply Qeq_bool_sym in xy. congruence.
    - apply Qeq_bool_sym in yx. congruence. }
  now rewrite (sym a0), (sym a1), (sym a2).
Qed.

Lemma str_eqb_refl (o : orientation) : str_eqb o o = true.
Proof. unfold str_eqb. now rewrite !vec3_eqb_refl. Qed.

Lemma str_eqb_sym (a b : orientation) : str_eqb a b = str_eqb b a.
Proof. unfold str_eqb. now rewrite (vec3_eqb_sym (fst a)), (vec3_eqb_sym (snd a)). Qed.

(** Two orientations with the same key are within tolerance. *)
Lemma str_eqb_close (o r : orientation) :
  str_eqb o r = true -> orientation_close o r = true.
Proof.
  unfold str_eqb, orientation_close. rewrite !andb_true_iff.
  intros [first second]. split; apply allclose_eq; try assumption; lra.
Qed.

(** So an orientation that is close to none of the representatives has
    the key of none. *)
Lemma not_close_fresh (o : orientation) (reps : list orientation) :
  find (orientation_close o) reps = None ->
  forall r, In r reps -> str_eqb r o = false.
Proof.
  intros none r member.
  destruct (str_eqb r o) eqn:same; [|reflexivity].
  rewrite str_eqb_sym in same. apply str_eqb_close in same.
  now rewrite (find_none _ _ none r member) in same.
Qed.

(** *** The dictionary of groups *)

Lemma existsb_find {A : Type} (f : A -> bool) (l : list A) :
  existsb f l = match find f l with Some _ => true | None => false end.
Proof.
  induction l as [|x l IH]; simpl; [reflexivity|].
  destruct (f x); [reflexivity | exact IH].
Qed.

Lemma filter_none {A : Type} (f : A -> bool) (l : list A) :
  (forall x, In x l -> f x = false) -> filter f l = [].
Proof.
  induction l as [|x l IH]; intro none; cbn [filter]; [reflexivity|].
  rewrite (none x (or_introl eq_refl)). apply IH.
  intros y member. apply none. now right.
Qed.

Lemma filter_all {A : Type} (f : A -> bool) (l : list A) :
  (forall x, In x l -> f x = true) -> filter f l = l.
Proof.
  induction l as [|x l IH]; intro all; cbn [filter]; [reflexivity|].
  rewrite (all x (or_introl eq_refl)). f_equal. apply IH.
  intros y member. apply all. now right.
Qed.

Lemma distinct_keys_snoc (reps : list orientation) (o : orientation) :
  distinct_keys reps ->
  (forall r, In r reps -> str_eqb r o = false) ->
  distinct_keys (reps ++ [o]).
Proof.
  induction reps as [|a reps IH]; cbn [app distinct_keys]; intros keys fresh.
  - split; [intros r' []|exact I].
  - destruct keys as [first rest]. split.
    + intros r' member. apply in_app_iff in member as [member | [<- | []]].
      * now apply first.
      * apply fresh. now left.
    + apply IH; [exact rest|]. intros r member. apply fresh. now right.
Qed.

Lemma distinct_keys_same (reps : list orientation) (r r' : orientation) :
  distinct_keys reps -> In r reps -> In r' reps ->
  str_eqb r r' = true -> r = r'.
Proof.
  induction reps as [|a reps IH]; cbn [distinct_keys]; [intros _ []|].
  intros [first rest] [<- | member] [<- | member'] same.
  - reflexivity.
  - now rewrite (first r' member') in same.
  - rewrite str_eqb_sym in same. now rewrite (first r member) in same.
  - now apply IH.
Qed.

Section Groups.
Variable f : orientation -> list dicom.

Lemma dict_get_distinct (reps : list orientation) (r : orientation) :
  distinct_keys reps -> In r reps ->
  dict_get str_eqb (map (fun r => (r, f r)) reps) r = Some (f r).
Proof.
  induction reps as [|a reps IH]; cbn [distinct_keys map dict_get]; [intros _ []|].
  intros [first rest] [-> | member].
  - now rewrite str_eqb_refl.
  - rewrite (first r member). now apply IH.
Qed.

Lemma dict_set_distinct (g : orientation -> list dicom) (reps : list orientation)
      (r : orientation) (v : list dicom) :
  distinct_keys reps -> In r reps ->
  (forall r', In r' reps -> g r' = if str_eqb r r' then v else f r') ->
  dict_set str_eqb (map (fun r => (r, f r)) reps) r v
  = map (fun r => (r, g r)) reps.
Proof.
  induction reps as [|a reps IH]; cbn [distinct_keys map dict_set]; [intros _ []|].
  intros [first rest] member updated.
  destruct member as [-> | member].
  - rewrite str_eqb_refl. f_equal.
    + now rewrite (updated r (or_introl eq_refl)), str_eqb_refl.
    + apply map_ext_in. intros r' member'.
      now rewrite (updated r' (or_intror member')), (first r' member').
  - rewrite (first r member). f_equal.
    + rewrite (updated a (or_introl eq_refl)), str_eqb_sym.
      now rewrite (first r member).
    + apply IH; [exact rest | exact member |].
      intros r' member'. apply updated. now right.
Qed.

Lemma dict_set_fresh (reps : list orientation) (o : orientation) (v : list dicom) :
  (forall r, In r reps -> str_eqb r o = false) ->
  dict_set str_eqb (map (fun r => (r, f r)) reps) o v
  = map (fun r => (r, f r)) reps ++ [(o, v)].
Proof.
  induction reps as [|a reps IH]; simpl; intro fresh; [reflexivity|].
  rewrite (fresh a (or_introl eq_refl)). f_equal. apply IH.
  intros r member. apply fresh. now right.
Qed.
End Groups.

(** *** The loop invariant of the clustering *)

Lemma representatives_snoc (dicoms : list dicom) (d : dicom) :
  representatives (dicoms ++ [d])
  = match find (orientation_close (ImageOrientationPatient d))
               (representatives dicoms) with
    | Some _ => representatives dicoms
    | None => representatives dicoms ++ [ImageOrientationPatient d]
    end.
Proof.
  unfold representatives. rewrite fold_left_app. cbn [fold_left].
  unfold add_representative. rewrite existsb_find.
  now destruct (find _ _).
Qed.

Lemma orientation_step_clustered (dicoms : list dicom) (d : dicom) :
  orientation_invariant dicoms ->
  orientation_step (clustered dicoms) d = Ok (clustered (dicoms ++ [d]))
  /\ orientation_invariant (dicoms ++ [d]).
Proof.
  intros [keys covered].
  unfold orientation_invariant, orientation_step, clustered.
  cbn [orientations sorted_dicoms].
  rewrite representatives_snoc.
  set (reps := representatives dicoms) in *.
  set (o := ImageOrientationPatient d).
  assert (self : orientation_close o o = true)
    by apply str_eqb_close, str_eqb_refl.
  destruct (find (orientation_close o) reps) as [r|] eqn:found.
  - destruct (find_some _ _ found) as [member close].
    unfold dict_item. rewrite dict_get_distinct by assumption. cbn [bind].
    split.
    + do 2 f_equal. apply dict_set_distinct; try assumption.
      intros r' member'. rewrite filter_app. cbn [filter].
      unfold belongs at 2. fold o. rewrite found.
      destruct (str_eqb r r') eqn:same.
      * now rewrite (distinct_keys_same reps r r' keys member member' same).
      * now rewrite app_nil_r.
    + split; [exact keys|]. apply Forall_app. split; [exact covered|].
      constructor; [|constructor]. fold o. now rewrite found.
  - pose proof (not_close_fresh o reps found) as fresh.
    assert (old : forall d', In d' dicoms -> forall r,
               belongs (reps ++ [o]) r d' = belongs reps r d').
    { intros d' member' r. unfold belongs. rewrite find_app.
      rewrite Forall_forall in covered.
      specialize (covered d' member'). now destruct (find _ reps). }
    assert (new : forall r, belongs (reps ++ [o]) r d = str_eqb o r).
    { intro r. unfold belongs. fold o. rewrite find_app, found.
      cbn [find]. now rewrite self. }
    split.
    + do 2 f_equal. rewrite dict_set_fresh by exact fresh.
      rewrite map_app. simpl map. apply f_equal2.
      * apply map_ext_in. intros r member. f_equal.
        rewrite filter_app. cbn [filter]. rewrite new.
        rewrite str_eqb_sym, (fresh r member), app_nil_r.
        apply filter_ext_in. intros d' member'. symmetry. now apply old.
      * do 2 f_equal. rewrite filter_app. cbn [filter].
        rewrite new, str_eqb_refl.
        rewrite filter_none; [reflexivity|].
        intros d' member'. rewrite old by exact member'.
        unfold belongs.
        destruct (find (orientation_close (ImageOrientationPatient d')) reps)
          as [r|] eqn:first; [|reflexivity].
        apply fresh. now apply (find_some _ _ first).
    + split; [now apply distinct_keys_snoc|].
      apply Forall_app. split.
      * rewrite Forall_forall in *. intros d' member'.
        specialize (covered d' member'). rewrite find_app.
        now destruct (find _ reps).
      * constructor; [|constructor]. fold o. rewrite find_app, found.
        cbn [find]. now rewrite self.
Qed.

Lemma orientation_loop_clustered (rest dicoms : list dicom) :
  orientation_invariant dicoms ->
  for_each orientation_step rest (clustered dicoms)
  = Ok (clustered (dicoms ++ rest))
  /\ orientation_invariant (dicoms ++ rest).
Proof.
  revert dicoms. induction rest as [|d rest IH]; intros dicoms inv.
  - rewrite app_nil_r. now split.
  - destruct (orientation_step_clustered dicoms d inv) as [step inv'].
    cbn [for_each]. rewrite step. cbn [bind].
    replace (dicoms ++ d :: rest) with ((dicoms ++ [d]) ++ rest)
      by now rewrite <- app_assoc.
    now apply IH.
Qed.

Lemma select_at_least_4 (entries : list (orientation * list dicom))
      (filtered_dicoms : list dicom) :
  fold_left
    (fun filtered_dicoms entry =>
       if (4 <=? List.length (snd entry))%nat
       then filtered_dicoms ++ snd entry
       else filtered_dicoms)
    entries filtered_dicoms
  = filtered_dicoms ++ List.concat (filter at_least_4 (map snd entries)).
Proof.
  revert filtered_dicoms.
  induction entries as [|[r group] entries IH]; intro filtered_dicoms.
  - cbn. now rewrite app_nil_r.
  - cbn -[Nat.leb]. rewrite IH. unfold at_least_4.
    destruct (4 <=? List.length group)%nat; cbn -[Nat.leb];
      [now rewrite app_assoc | reflexivity].
Qed.

(** The filter in terms of the groups of the clustering. *)
Lemma remove_localizers_by_orientation_groups (dicoms : list dicom) :
  _remove_localizers_by_orientation dicoms
  = match orientation_groups dicoms with
    | [] => Raise StopIteration
    | [_] => Ok dicoms
    | groups => Ok (List.concat (filter at_least_4 groups))
    end.
Proof.
  pose proof (orientation_loop_clustered dicoms []) as loop.
  simpl app in loop. destruct loop as [loop [keys covered]].
  { split; [exact I | constructor]. }
  unfold _remove_localizers_by_orientation.
  change (mkOrient [] []) with (clustered []). rewrite loop. cbn [bind].
  unfold clustered, orientation_groups, select_orientations.
  cbn [sorted_dicoms]. rewrite length_map, select_at_least_4, map_map.
  destruct (representatives dicoms) as [|r [|r' reps]]; try reflexivity.
  simpl. f_equal. apply filter_all. intros d member.
  rewrite Forall_forall in covered. specialize (covered d member).
  unfold belongs. simpl in *.
  destruct (orientation_close _ r); [apply str_eqb_refl | congruence].
Qed.

(** C5: with exactly one orientation group the filter returns its input,
    whatever the size of the group; with more than one it returns the
    groups of four slices or more, one after the other, each group being
    the input filtered and so in the order of the input. *)
Theorem orientation_filter_groups (dicoms : list dicom) :
  let groups := orientation_groups dicoms in
  (List.length groups = 1%nat ->
   _remove_localizers_by_orientation dicoms = Ok dicoms)
  /\ ((1 < List.length groups)%nat ->
      _remove_localizers_by_orientation dicoms
      = Ok (List.concat (filter at_least_4 groups)))
  /\ (forall group, In group groups ->
        exists r, group = filter (belongs (representatives dicoms) r) dicoms).
Proof.
  cbn zeta. rewrite remove_localizers_by_orientation_groups.
  split; [|split].
  - destruct (orientation_groups dicoms) as [|g [|g' groups]];
      cbn [List.length]; intro one; try lia. reflexivity.
  - destruct (orientation_groups dicoms) as [|g [|g' groups]];
      cbn [List.length]; intro more; try lia. reflexivity.
  - unfold orientation_groups. intros group member.
    apply in_map_iff in member as (r & <- & _). now exists r.
Qed.

(** * Further properties of the module *)

(** ** The split, lines 179-198 *)

Lemma rejoin_snoc (runs : list (list dicom)) (run : list dicom) :
  runs <> [] -> rejoin (runs ++ [run]) = rejoin runs ++ tl run.
Proof.
  destruct runs as [|first rest]; [congruence|]. intros _.
  cbn [app rejoin]. rewrite flat_map_app. cbn [flat_map].
  now rewrite app_nil_r, app_assoc.
Qed.

Lemma rejoin_grow (runs : list (list dicom)) (run : list dicom) (d : dicom) :
  run <> [] -> rejoin (runs ++ [run ++ [d]]) = rejoin (runs ++ [run]) ++ [d].
Proof.
  intro nonempty. destruct runs as [|first rest].
  - cbn [app rejoin flat_map]. now rewrite !app_nil_r.
  - rewrite !rejoin_snoc by discriminate.
    destruct run; [congruence|]. cbn [tl app]. now rewrite app_assoc.
Qed.

Lemma displacements_snoc (run : list dicom) (d0 d : dicom) :
  displacements ((d0 :: run) ++ [d])
  = displacements (d0 :: run)
    ++ [vsub (ImagePositionPatient (last run d0)) (ImagePositionPatient d)].
Proof.
  revert d0. induction run as [|d1 run IH]; intro d0; [reflexivity|].
  change (displacements ((d0 :: d1 :: run) ++ [d]))
    with (vsub (ImagePositionPatient d0) (ImagePositionPatient d1)
          :: displacements ((d1 :: run) ++ [d])).
  rewrite IH, last_cons. reflexivity.
Qed.

Lemma maximal_runs_snoc (runs : list (list dicom)) (run next : list dicom) :
  maximal_runs (runs ++ [run]) ->
  (exists reference first,
      reference_increment run = Some reference
      /\ reference_increment next = Some first
      /\ allclose (5 # 100) (1 # 10) reference first = false) ->
  maximal_runs ((runs ++ [run]) ++ [next]).
Proof.
  intros maximal break.
  induction runs as [|r0 runs IH]; cbn [app maximal_runs] in *.
  - split; [exact break | exact I].
  - destruct runs as [|r1 runs]; cbn [app] in *.
    + destruct maximal as [b _]. repeat split; assumption.
    + destruct maximal as [b rest]. split; [exact b | exact (IH rest)].
Qed.

Lemma maximal_runs_grow (runs : list (list dicom)) (run : list dicom) (d : dicom) :
  reference_increment (run ++ [d]) = reference_increment run ->
  maximal_runs (runs ++ [run]) ->
  maximal_runs (runs ++ [run ++ [d]]).
Proof.
  intros same maximal.
  induction runs as [|r0 runs IH]; cbn [app maximal_runs] in *.
  - exact I.
  - destruct runs as [|r1 runs]; cbn [app] in *.
    + destruct maximal as [(reference & next & r & n & differs) _].
      split; [|exact I]. exists reference, next. rewrite same. now repeat split.
    + destruct maximal as [b rest]. split; [exact b | exact (IH rest)].
Qed.

Lemma split_step_progress (seen : list dicom) (st : split_state) (d : dicom) :
  split_invariant st -> split_progress seen st ->
  split_progress (seen ++ [d]) (split_step st d).
Proof.
  intros (long & _ & _) (joined & reference & previous & consistent & maximal).
  destruct (current_group st) as [|d0 [|d1 run]] eqn:current;
    cbn in long; try lia.
  rewrite (last_slice_last _ d) in previous by discriminate.
  cbn [option_map] in previous. rewrite !last_cons in previous.
  assert (position : ImagePositionPatient (last run d1)
                     = previous_image_position st) by congruence.
  clear previous. rename position into previous.
  apply Forall_app in consistent as [closed open].
  apply Forall_inv in open.
  unfold split_step, split_progress. rewrite current, <- previous.
  destruct (allclose _ _ (increment st) _) eqn:close; cbn [negb];
    cbn [current_group slice_incement_groups increment previous_image_position].
  - repeat split.
    + rewrite rejoin_grow by discriminate. now rewrite joined.
    + exact reference.
    + rewrite (last_slice_last _ d) by discriminate.
      cbn [option_map]. now rewrite last_last.
    + apply Forall_app. split; [exact closed|]. constructor; [|constructor].
      unfold consistent_run in *. rewrite displacements_snoc, !last_cons.
      change (displacements (d0 :: d1 :: run))
        with (vsub (ImagePositionPatient d0) (ImagePositionPatient d1)
              :: displacements (d1 :: run)) in *.
      cbn [app]. apply Forall_app. split; [exact open|].
      constructor; [|constructor].
      cbn [reference_increment hd_error] in reference.
      injection reference as ->. exact close.
    + apply maximal_runs_grow; [reflexivity | exact maximal].
  - repeat split.
    + rewrite rejoin_snoc by now destruct (slice_incement_groups st).
      cbn [tl]. now rewrite joined.
    + now rewrite !last_cons.
    + apply Forall_app. split.
      * apply Forall_app. split; [exact closed|]. now constructor.
      * constructor; [|constructor]. unfold consistent_run. cbn. constructor.
    + apply maximal_runs_snoc; [exact maximal|].
      eexists _, _. split; [exact reference|]. split; [reflexivity|].
      rewrite !last_cons. exact close.
Qed.

Lemma split_loop_progress (rest seen : list dicom) (st : split_state) :
  split_invariant st -> split_progress seen st ->
  split_invariant (split_loop st rest)
  /\ split_progress (seen ++ rest) (split_loop st rest).
Proof.
  revert seen st. induction rest as [|d rest IH]; intros seen st inv progress.
  - rewrite app_nil_r. now split.
  - replace (seen ++ d :: rest) with ((seen ++ [d]) ++ rest)
      by now rewrite <- app_assoc.
    apply IH; [now apply split_step_invariant | now apply split_step_progress].
Qed.

Lemma allclose_refl (rtol atol : Q) (v : vec3) :
  0 <= rtol -> 0 <= atol -> allclose rtol atol v v = true.
Proof. intros rel abs. apply allclose_eq; try assumption. apply vec3_eqb_refl. Qed.

Lemma split_init_progress (d0 d1 : dicom) :
  split_invariant (split_init d0 d1) /\ split_progress [d0; d1] (split_init d0 d1).
Proof.
  split.
  - repeat split; cbn; auto.
  - repeat split; cbn; auto. constructor; [|constructor].
    unfold consistent_run. cbn. constructor.
Qed.

(** The whole loop, on a series of two slices or more. *)
Lemma split_progress_result (d0 d1 : dicom) (rest : list dicom) :
  split_progress (d0 :: d1 :: rest) (split_loop (split_init d0 d1) rest).
Proof.
  destruct (split_init_progress d0 d1) as [inv progress].
  now destruct (split_loop_progress rest [d0; d1] _ inv progress).
Qed.

(** X1: the runs the split returns rejoin to the series: no slice is lost
    or moved, and only the boundary slices are repeated. *)
Theorem split_rejoins (dicom_input : list dicom) (runs : list (list dicom))
        (maximum : real)
  (returns : split_slice_increments dicom_input = Ok (runs, maximum)) :
  rejoin runs = dicom_input.
Proof.
  destruct dicom_input as [|d0 [|d1 rest]]; try discriminate.
  cbn [split_slice_increments] in returns. injection returns as <- _.
  now destruct (split_progress_result d0 d1 rest) as (joined & _).
Qed.

Lemma split_rejoins_witness :
  rejoin [map slice_at [0; 1; 2]; map slice_at [2; 4]; map slice_at [4; 5]]
  = map slice_at [0; 1; 2; 4; 5].
Proof.
  apply (split_rejoins (map slice_at [0; 1; 2; 4; 5]) _ (real_of_Q 2)).
  reflexivity.
Defined.

(** X2: in every run the split returns, each displacement after the
    first matches the first displacement of the run within the tolerance;
    and the first displacement of the next run does not match it: the
    runs are consistent and end only where the increment changes. *)
Theorem split_runs_consistent (dicom_input : list dicom)
        (runs : list (list dicom)) (maximum : real)
  (returns : split_slice_increments dicom_input = Ok (runs, maximum)) :
  Forall consistent_run runs /\ maximal_runs runs.
Proof.
  destruct dicom_input as [|d0 [|d1 rest]]; try discriminate.
  cbn [split_slice_increments] in returns. injection returns as <- _.
  now destruct (split_progress_result d0 d1 rest) as (_ & _ & _ & consistent & maximal).
Qed.

Lemma split_runs_consistent_witness :
  Forall consistent_run
         [map slice_at [0; 1; 2]; map slice_at [2; 4]; map slice_at [4; 5]]
  /\ maximal_runs
       [map slice_at [0; 1; 2]; map slice_at [2; 4]; map slice_at [4; 5]].
Proof.
  apply (split_runs_consistent (map slice_at [0; 1; 2; 4; 5]) _ (real_of_Q 2)).
  reflexivity.
Defined.

Lemma split_loop_single (rest : list dicom) (st : split_state) (previous : dicom) :
  slice_incement_groups st = [] ->
  previous_image_position st = ImagePositionPatient previous ->
  Forall (fun v => allclose (5 # 100) (1 # 10) (increment st) v = true)
         (displacements (previous :: rest)) ->
  slice_incement_groups (split_loop st rest) = []
  /\ current_group (split_loop st rest) = current_group st ++ rest.
Proof.
  revert st previous.
  induction rest as [|d rest IH]; intros st previous none position close.
  - cbn. now rewrite app_nil_r.
  - change (displacements (previous :: d :: rest))
      with (vsub (ImagePositionPatient previous) (ImagePositionPatient d)
            :: displacements (d :: rest)) in close.
    apply Forall_cons_iff in close as [first others].
    cbn [split_loop fold_left].
    change (fold_left split_step rest (split_step st d))
      with (split_loop (split_step st d) rest).
    assert (step : split_step st d
                   = mkSplit (increment st)
                             (py_max (max_slice_increment st)
                                     (norm (vsub (previous_image_position st)
                                                 (ImagePositionPatient d))))
                             (slice_incement_groups st)
                             (current_group st ++ [d])
                             (ImagePositionPatient d)).
    { unfold split_step. rewrite position, first. reflexivity. }
    rewrite step.
    destruct (IH (mkSplit (increment st)
                          (py_max (max_slice_increment st)
                                  (norm (vsub (previous_image_position st)
                                              (ImagePositionPatient d))))
                          (slice_incement_groups st)
                          (current_group st ++ [d])
                          (ImagePositionPatient d)) d none eq_refl others)
      as [groups current].
    split; [exact groups|]. rewrite current. cbn [current_group].
    now rewrite <- app_assoc.
Qed.

(** X3: the split returns the whole series as its only run exactly when
    every displacement from the second slice on matches the displacement
    of the first two slices within the tolerance. *)
Theorem split_single_run (d0 d1 : dicom) (rest : list dicom) :
  (exists maximum,
      split_slice_increments (d0 :: d1 :: rest)
      = Ok ([d0 :: d1 :: rest], maximum))
  <-> Forall (fun v => allclose (5 # 100) (1 # 10)
                         (vsub (ImagePositionPatient d0) (ImagePositionPatient d1))
                         v = true)
             (displacements (d1 :: rest)).
Proof.
  split.
  - intros [maximum returns]. cbn [split_slice_increments] in returns.
    injection returns as runs _.
    destruct (split_progress_result d0 d1 rest) as (_ & _ & _ & consistent & _).
    rewrite runs in consistent. apply Forall_inv in consistent.
    exact consistent.
  - intro close.
    destruct (split_loop_single rest (split_init d0 d1) d1 eq_refl eq_refl close)
      as [groups current].
    eexists. cbn [split_slice_increments]. rewrite groups, current. reflexivity.
Qed.

(** X4: on a series of fewer than two slices the split conversion raises
    IndexError, whatever the collaborators: none of them is reached. *)
Theorem convert_too_short (C : collaborators) (dicom_input : list dicom)
  (short : (List.length dicom_input < 2)%nat) :
  _convert_slice_incement_inconsistencies C dicom_input = Raise IndexError.
Proof.
  destruct dicom_input as [|d0 [|d1 rest]]; cbn in short; try lia; reflexivity.
Qed.

Lemma convert_too_short_witness :
  _convert_slice_incement_inconsistencies reference [slice_at 0] = Raise IndexError.
Proof. apply (convert_too_short reference [slice_at 0]). cbn. lia. Defined.

(** *** The maximum *)

Lemma real_ltb_false (a b : real) :
  real_ltb a b = false <-> radicand b <= radicand a.
Proof.
  unfold real_ltb. rewrite negb_false_iff. apply Qle_bool_iff.
Qed.

Lemma py_max_bounds (a b : real) :
  real_ltb (py_max a b) a = false /\ real_ltb (py_max a b) b = false.
Proof.
  unfold py_max. destruct (real_ltb a b) eqn:order.
  - split; apply real_ltb_false; [|lra].
    unfold real_ltb in order. apply negb_true_iff in order.
    destruct (Qlt_le_dec (radicand a) (radicand b)) as [lt | le]; [lra|].
    apply Qle_bool_iff in le. congruence.
  - split; [apply real_ltb_false; lra | exact order].
Qed.

Lemma max_norm_bounds (ds : list vec3) (m0 : real) :
  real_ltb (fold_left (fun m v => py_max m (norm v)) ds m0) m0 = false
  /\ Forall (fun v => real_ltb (fold_left (fun m v => py_max m (norm v)) ds m0)
                              (norm v) = false) ds
  /\ (fold_left (fun m v => py_max m (norm v)) ds m0 = m0
      \/ exists v, In v ds
                   /\ fold_left (fun m v => py_max m (norm v)) ds m0 = norm v).
Proof.
  revert m0. induction ds as [|d ds IH]; intro m0; cbn [fold_left].
  - repeat split; [apply real_ltb_false; lra | constructor | now left].
  - destruct (IH (py_max m0 (norm d))) as (above & all & attained).
    destruct (py_max_bounds m0 (norm d)) as [left_ right_].
    apply real_ltb_false in above, left_, right_.
    repeat split.
    + apply real_ltb_false. lra.
    + constructor; [apply real_ltb_false; lra | exact all].
    + destruct attained as [same | (v & member & same)].
      * rewrite same. unfold py_max. destruct (real_ltb m0 (norm d)).
        -- right. exists d. split; [now left | reflexivity].
        -- now left.
      * right. exists v. split; [now right | exact same].
Qed.

(** X5: the maximum the split returns is at least the norm of every
    displacement from the second slice on, and it is one of these norms
    or 0: it is the maximum of the displacements the loop visits. *)
Theorem split_maximum_bounds (d0 d1 : dicom) (rest : list dicom)
        (runs : list (list dicom)) (maximum : real)
  (returns : split_slice_increments (d0 :: d1 :: rest) = Ok (runs, maximum)) :
  Forall (fun v => real_ltb maximum (norm v) = false) (displacements (d1 :: rest))
  /\ (maximum = real_of_Q 0
      \/ exists v, In v (displacements (d1 :: rest)) /\ maximum = norm v).
Proof.
  cbn [split_slice_increments] in returns. injection returns as _ <-.
  rewrite (split_loop_maximum rest (split_init d0 d1) d1 eq_refl).
  destruct (max_norm_bounds (displacements (d1 :: rest))
                            (max_slice_increment (split_init d0 d1)))
    as (_ & all & attained).
  split; [exact all | exact attained].
Qed.

Lemma split_maximum_bounds_witness :
  Forall (fun v => real_ltb (real_of_Q 1) (norm v) = false)
         (displacements (map slice_at [5; 6; 7]))
  /\ (real_of_Q 1 = real_of_Q 0
      \/ exists v, In v (displacements (map slice_at [5; 6; 7]))
                   /\ real_of_Q 1 = norm v).
Proof.
  apply (split_maximum_bounds (slice_at 0) (slice_at 5) (map slice_at [6; 7])
           [map slice_at [0; 5]; map slice_at [5; 6; 7]]).
  reflexivity.
Defined.

(** ** The volumes of the runs, lines 201-216 *)

Lemma pooled_spacings_length (C : collaborators) (runs : list (list dicom))
      (volumes : list (nifti C)) :
  List.length runs = List.length volumes ->
  List.length (pooled_spacings C runs volumes)
  = list_sum (map (fun run => (List.length run - 1)%nat) runs).
Proof.
  revert volumes. unfold pooled_spacings.
  induction runs as [|run runs IH]; intros [|v volumes] same;
    try discriminate; [reflexivity|].
  cbn [combine flat_map map list_sum fst snd].
  rewrite length_app, repeat_length, IH; [reflexivity|].
  now injection same.
Qed.

Lemma rejoin_length (runs : list (list dicom)) :
  runs <> [] -> Forall (fun run => (2 <= List.length run)%nat) runs ->
  List.length (rejoin runs)
  = S (list_sum (map (fun run => (List.length run - 1)%nat) runs)).
Proof.
  destruct runs as [|first rest]; [congruence|]. intros _ long.
  apply Forall_cons_iff in long as [long_first long_rest].
  cbn [rejoin map list_sum]. rewrite length_app.
  assert (tails : List.length (flat_map (@tl dicom) rest)
                  = list_sum (map (fun run => (List.length run - 1)%nat) rest)).
  { clear long_rest. induction rest as [|run rest IH]; [reflexivity|].
    cbn [flat_map map list_sum]. rewrite length_app, IH.
    destruct run as [|d run]; [reflexivity|]. cbn [tl].
    change (List.length (d :: run)) with (S (List.length run)).
    unfold list_sum in *. cbn [fold_right]. lia. }
  rewrite tails. unfold list_sum. cbn [fold_right]. lia.
Qed.

(** X6: the pool of spacing samples has one sample per pair of
    consecutive slices of the series, the number of slices minus one. *)
Theorem pooled_samples_count (C : collaborators) (dicom_input : list dicom)
        (runs : list (list dicom)) (volumes : list (nifti C)) (maximum : real)
  (returns : split_slice_increments dicom_input = Ok (runs, maximum))
  (built : Forall2 (fun run v => run_volume C run = Ok v) runs volumes) :
  List.length (pooled_spacings C runs volumes)
  = (List.length dicom_input - 1)%nat.
Proof.
  rewrite (pooled_spacings_length C runs volumes (Forall2_length built)).
  destruct dicom_input as [|d0 [|d1 rest]]; try discriminate.
  cbn [split_slice_increments] in returns. injection returns as <- _.
  destruct (split_progress_result d0 d1 rest) as (joined & _).
  destruct (split_loop_invariant rest (split_init d0 d1))
    as (long & closed & _).
  { repeat split; cbn; auto. }
  rewrite <- joined. rewrite rejoin_length.
  - lia.
  - now destruct (slice_incement_groups _).
  - apply Forall_app. split; [exact closed | now constructor].
Qed.

Lemma pooled_samples_count_witness :
  List.length
    (pooled_spacings reference
       [map slice_at [0; 5]; map slice_at [5; 6; 7]]
       [Image [[[0%Z]]; [[0%Z]]]
              (mkAffine (0, 0, 0) (1, 0, 0) (0, 1, 0) (1, 1) (0, 0, 5)) None;
        Image [[[0%Z]]; [[0%Z]]; [[0%Z]]]
              (mkAffine (0, 0, 5) (1, 0, 0) (0, 1, 0) (1, 1) (0, 0, 1)) None])
  = (List.length late_start - 1)%nat.
Proof.
  apply (pooled_samples_count reference late_start _ _ (Sqrt 1)).
  - reflexivity.
  - repeat constructor.
Defined.

Lemma run_volume_ok (C : collaborators) (run : list dicom) (v : nifti C) :
  run_volume C run = Ok v ->
  exists data affine_ m,
    get_volume_pixeldata C run = Ok data
    /\ create_affine C run = Ok (affine_, m)
    /\ v = Nifti1Image C data affine_.
Proof.
  unfold run_volume. intro built.
  apply bind_ok in built as (data & pixeldata & built).
  apply bind_ok in built as ([affine_ m] & created & [= <-]).
  now exists data, affine_, m.
Qed.

(** The loop over the runs when every run gives a volume. *)
Lemma volume_loop_runs (C : collaborators) (runs : list (list dicom))
      (volumes : list (nifti C)) (st0 : volumes_state C) :
  Forall2 (fun run v => run_volume C run = Ok v) runs volumes ->
  for_each (@volume_step C) runs st0
  = Ok (mkVolumes C
          (slice_incement_niftis st0 ++ volumes)
          (slice_increments st0 ++ pooled_spacings C runs volumes)
          (fold_left (fun d v => dict_set String.eqb d (spacing_key C v)
                                          (get_zooms C v))
                     volumes (voxel_sizes st0))).
Proof.
  intro built. revert st0.
  induction built as [|run v runs volumes first _ IH]; intro st0;
    cbn [for_each fold_left].
  - unfold pooled_spacings. cbn. rewrite !app_nil_r. now destruct st0.
  - apply run_volume_ok in first as (data & affine_ & m & pixeldata & created & ->).
    unfold volume_step at 1. rewrite pixeldata. cbn [bind].
    rewrite created. cbn [bind]. rewrite IH.
    cbn [slice_incement_niftis slice_increments voxel_sizes].
    unfold pooled_spacings, spacing_key, run_spacing.
    cbn [combine flat_map fst snd]. now rewrite <- !app_assoc.
Qed.

Lemma dict_get_other (C : collaborators) (volumes : list (nifti C))
      (d : list (string * zooms)) (k : string) :
  Forall (fun v => spacing_key C v <> k) volumes ->
  dict_get String.eqb
           (fold_left (fun d v => dict_set String.eqb d (spacing_key C v)
                                           (get_zooms C v))
                      volumes d) k
  = dict_get String.eqb d k.
Proof.
  intro others. revert d.
  induction others as [|v volumes other _ IH]; intro d; cbn [fold_left];
    [reflexivity|].
  rewrite IH, dict_get_set.
  now destruct (String.eqb_spec (spacing_key C v) k).
Qed.

(** X7: when every run gives a volume and no run has the key of the 10th
    percentile of the pooled samples, the conversion raises KeyError: the
    resampler is not called. *)
Theorem convert_no_matching_run (C : collaborators) (dicom_input : list dicom)
        (runs : list (list dicom)) (volumes : list (nifti C)) (maximum : real)
  (returns : split_slice_increments dicom_input = Ok (runs, maximum))
  (built : Forall2 (fun run v => run_volume C run = Ok v) runs volumes)
  (none : Forall (fun v => spacing_key C v
                           <> format_5f C (percentile C
                                             (pooled_spacings C runs volumes) 10))
                 volumes) :
  _convert_slice_incement_inconsistencies C dicom_input = Raise KeyError.
Proof.
  unfold _convert_slice_incement_inconsistencies.
  rewrite returns. cbn [bind].
  rewrite (volume_loop_runs C runs volumes _ built). cbn [bind].
  cbn [slice_incement_niftis slice_increments voxel_sizes app].
  unfold dict_item. now rewrite (dict_get_other C volumes [] _ none).
Qed.

Lemma convert_no_matching_run_witness :
  _convert_slice_incement_inconsistencies reference (map slice_at [0; 5; 6])
  = Raise KeyError.
Proof.
  apply (convert_no_matching_run reference (map slice_at [0; 5; 6])
           [map slice_at [0; 5]; map slice_at [5; 6]]
           [Image [[[0%Z]]; [[0%Z]]]
                  (mkAffine (0, 0, 0) (1, 0, 0) (0, 1, 0) (1, 1) (0, 0, 5)) None;
            Image [[[0%Z]]; [[0%Z]]]
                  (mkAffine (0, 0, 5) (1, 0, 0) (0, 1, 0) (1, 1) (0, 0, 1)) None]
           (Sqrt 1)).
  - reflexivity.
  - repeat constructor.
  - repeat constructor; vm_compute; discriminate.
Defined.

(** ** The duplicate filter, lines 97-115 *)

Lemma without_duplicates_app (earlier l1 l2 : list dicom) :
  without_duplicates earlier (l1 ++ l2)
  = without_duplicates earlier l1 ++ without_duplicates (earlier ++ l1) l2.
Proof.
  revert earlier. induction l1 as [|d l1 IH]; intro earlier.
  - cbn [app without_duplicates]. now rewrite app_nil_r.
  - cbn [app without_duplicates]. rewrite IH, <- !app_assoc. reflexivity.
Qed.

Lemma without_duplicates_in (rest earlier : list dicom) (d : dicom) :
  In d (without_duplicates earlier rest) -> In d rest.
Proof.
  revert earlier. induction rest as [|d0 rest IH]; intro earlier;
    cbn [without_duplicates]; [intros []|].
  intro member. apply in_app_iff in member as [first | later].
  - destruct (duplicate_of_first earlier d0); [destruct first|].
    destruct first as [<- | []]. now left.
  - right. exact (IH _ later).
Qed.

(** The slices kept have, at every position, the first slice of the
    series. *)
Lemma first_at_kept (dicoms : list dicom) (position : vec3) :
  first_at (without_duplicates [] dicoms) position = first_at dicoms position.
Proof.
  induction dicoms as [|d dicoms IH] using rev_ind; [reflexivity|].
  rewrite without_duplicates_app. cbn [app without_duplicates].
  rewrite app_nil_r. unfold first_at in *. rewrite !find_app, IH.
  destruct (find (fun e => vec3_eqb (ImagePositionPatient e) position) dicoms)
    as [first|] eqn:seen; [reflexivity|].
  cbn [find].
  destruct (vec3_eqb (ImagePositionPatient d) position) eqn:here.
  - assert (fresh : duplicate_of_first dicoms d = false).
    { unfold duplicate_of_first, first_at.
      destruct (find (fun e => vec3_eqb (ImagePositionPatient e)
                                        (ImagePositionPatient d)) dicoms)
        as [stored|] eqn:there; [|reflexivity].
      destruct (find_some _ _ there) as [member at_d].
      pose proof (find_none _ _ seen stored member) as away. cbn in away.
      now rewrite (vec3_eqb_trans _ _ _ at_d here) in away. }
    rewrite fresh. cbn [find]. now rewrite here.
  - destruct (duplicate_of_first dicoms d); [reflexivity|].
    cbn [find]. now rewrite here.
Qed.

Lemma without_duplicates_again (rest earlier : list dicom) :
  without_duplicates (without_duplicates [] earlier)
                     (without_duplicates earlier rest)
  = without_duplicates earlier rest.
Proof.
  revert earlier. induction rest as [|d rest IH]; intro earlier;
    [reflexivity|].
  cbn [without_duplicates].
  specialize (IH (earlier ++ [d])).
  rewrite without_duplicates_app in IH. cbn [app without_duplicates] in IH.
  rewrite app_nil_r in IH.
  destruct (duplicate_of_first earlier d) eqn:dropped; cbn [app] in *.
  - now rewrite app_nil_r in IH.
  - cbn [without_duplicates].
    unfold duplicate_of_first at 1. rewrite first_at_kept.
    fold (duplicate_of_first earlier d). rewrite dropped. cbn [app].
    now rewrite IH.
Qed.

(** X9: the filter returns slices of its input only, and at every
    position the first slice of the input is kept and is still the first
    one there: no position of the series is lost. *)
Theorem remove_duplicate_slices_keeps_first (dicoms : list dicom) :
  (forall d, In d (_remove_duplicate_slices dicoms) -> In d dicoms)
  /\ forall position,
       first_at (_remove_duplicate_slices dicoms) position
       = first_at dicoms position.
Proof.
  unfold _remove_duplicate_slices.
  rewrite (duplicate_loop dicoms [] [] []) by (intro; reflexivity).
  cbn [app]. split.
  - intros d member. exact (without_duplicates_in _ _ _ member).
  - apply first_at_kept.
Qed.

(** X10: filtering the duplicates out a second time changes nothing. *)
Theorem remove_duplicate_slices_idempotent (dicoms : list dicom) :
  _remove_duplicate_slices (_remove_duplicate_slices dicoms)
  = _remove_duplicate_slices dicoms.
Proof.
  unfold _remove_duplicate_slices.
  rewrite !(duplicate_loop _ [] [] []) by (intro; reflexivity).
  cbn [app]. exact (without_duplicates_again dicoms []).
Qed.

(** ** The image type filter, lines 118-131 *)

(** X12: the filter never returns a slice with the localizer marker, nor
    a slice of modality CT with the projection image marker. *)
Theorem remove_localizers_by_imagetype_sound (dicoms : list dicom) :
  Forall (fun d => localizer_by_imagetype d = false)
         (_remove_localizers_by_imagetype dicoms).
Proof.
  unfold _remove_localizers_by_imagetype. rewrite imagetype_step_filter.
  cbn [app]. apply Forall_forall. intros d member.
  apply filter_In in member as [_ kept].
  destruct (localizer_by_imagetype d) eqn:localizer; [|reflexivity].
  apply localizer_by_imagetype_dropped in localizer.
  now rewrite localizer in kept.
Qed.

(** X13: a series whose slices carry neither marker, or no image type at
    all, passes the filter unchanged. *)
Theorem remove_localizers_by_imagetype_unmarked (dicoms : list dicom)
  (unmarked : Forall (fun d => has_image_type "LOCALIZER" d = false
                               /\ has_image_type "PROJECTION IMAGE" d = false)
                     dicoms) :
  _remove_localizers_by_imagetype dicoms = dicoms.
Proof.
  unfold _remove_localizers_by_imagetype. rewrite imagetype_step_filter.
  cbn [app]. apply filter_all. intros d member.
  rewrite Forall_forall in unmarked.
  destruct (unmarked d member) as [localizer projection].
  unfold dropped_by_imagetype. rewrite localizer, projection.
  now rewrite andb_false_r.
Qed.

Lemma remove_localizers_by_imagetype_unmarked_witness :
  _remove_localizers_by_imagetype (map slice_at [0; 1]) = map slice_at [0; 1].
Proof.
  apply (remove_localizers_by_imagetype_unmarked (map slice_at [0; 1])).
  repeat constructor.
Defined.

(** ** The orientation filter, lines 134-171 *)

Lemma representatives_invariant (dicoms : list dicom) :
  orientation_invariant dicoms.
Proof.
  pose proof (orientation_loop_clustered dicoms []) as loop.
  cbn [app] in loop. apply loop. split; [exact I | constructor].
Qed.

Lemma representatives_nonempty (d : dicom) (dicoms : list dicom) :
  representatives (d :: dicoms) <> [].
Proof.
  destruct (representatives_invariant (d :: dicoms)) as [_ covered].
  apply Forall_inv in covered. intro none. now rewrite none in covered.
Qed.

(** X14: the filter raises only on the empty series, and then
    StopIteration; on every other series it returns. *)
Theorem remove_localizers_by_orientation_raises (dicoms : list dicom) :
  match dicoms with
  | [] => _remove_localizers_by_orientation dicoms = Raise StopIteration
  | _ :: _ => exists filtered, _remove_localizers_by_orientation dicoms = Ok filtered
  end.
Proof.
  destruct dicoms as [|d dicoms]; [reflexivity|].
  rewrite remove_localizers_by_orientation_groups. unfold orientation_groups.
  pose proof (representatives_nonempty d dicoms) as nonempty.
  destruct (representatives (d :: dicoms)) as [|r [|r' reps]];
    [congruence | |]; cbn [map]; eexists; reflexivity.
Qed.

Lemma representatives_uniform (rest : list dicom) (o : orientation) :
  Forall (fun d => orientation_close (ImageOrientationPatient d) o = true) rest ->
  fold_left add_representative rest [o] = [o].
Proof.
  induction 1 as [|d rest close _ IH]; [reflexivity|].
  cbn [fold_left]. unfold add_representative at 2. cbn [existsb].
  now rewrite close.
Qed.

(** X15: a series in which every slice matches the orientation of the
    first slice within the tolerance passes the filter unchanged, however
    few slices it has. *)
Theorem remove_localizers_by_orientation_uniform (d0 : dicom) (rest : list dicom)
  (uniform : Forall (fun d => orientation_close (ImageOrientationPatient d)
                                                (ImageOrientationPatient d0) = true)
                    rest) :
  _remove_localizers_by_orientation (d0 :: rest) = Ok (d0 :: rest).
Proof.
  rewrite remove_localizers_by_orientation_groups. unfold orientation_groups.
  assert (one : representatives (d0 :: rest) = [ImageOrientationPatient d0]).
  { unfold representatives. cbn [fold_left]. unfold add_representative at 2.
    cbn [existsb app]. now apply representatives_uniform. }
  now rewrite one.
Qed.

Lemma remove_localizers_by_orientation_uniform_witness :
  _remove_localizers_by_orientation (map slice_at [0; 1]) = Ok (map slice_at [0; 1]).
Proof.
  apply (remove_localizers_by_orientation_uniform (slice_at 0) [slice_at 1]).
  repeat constructor.
Defined.






(** ** The conversion, lines 29-94 *)

(** X17: with the slice count validation on, a series that is not empty
    and in which the image type filter drops every slice makes the
    conversion raise StopIteration, whatever the collaborators: the
    orientation filter is given an empty list. *)
Theorem conversion_of_localizers (C : collaborators) (cfg : settings.t)
        (dicom_input : list dicom) (output_file : option string)
  (nonempty : dicom_input <> [])
  (validated : settings.validate_slicecount cfg = true)
  (localizers : Forall (fun d => dropped_by_imagetype d = true) dicom_input) :
  dicom_to_nifti C cfg dicom_input output_file = Raise StopIteration.
Proof.
  assert (none : _remove_localizers_by_imagetype
                   (_remove_duplicate_slices dicom_input) = []).
  { unfold _remove_localizers_by_imagetype. rewrite imagetype_step_filter.
    cbn [app]. apply filter_none. intros d member.
    unfold _remove_duplicate_slices in member.
    rewrite (duplicate_loop dicom_input [] [] []) in member
      by (intro; reflexivity).
    cbn [app] in member. apply without_duplicates_in in member.
    rewrite Forall_forall in localizers. now rewrite (localizers d member). }
  unfold dicom_to_nifti, sorted_series.
  destruct dicom_input as [|d rest]; [congruence|].
  cbn [List.length Nat.leb]. rewrite none, validated. reflexivity.
Qed.

Lemma conversion_of_localizers_witness :
  dicom_to_nifti reference slicecount_only [scout] None = Raise StopIteration.
Proof.
  apply (conversion_of_localizers reference slicecount_only [scout] None).
  - discriminate.
  - reflexivity.
  - repeat constructor.
Defined.

(** X18: a conversion that succeeds has a sorted series with a first
    slice; its image is the converted volume, with the repetition and echo
    times of that first slice set on it exactly when the slice has both;
    and the file name is handed back as given. *)
Theorem conversion_timing (C : collaborators) (cfg : settings.t)
        (dicom_input : list dicom) (output_file : option string)
        (out : conversion C)
  (succeeds : dicom_to_nifti C cfg dicom_input output_file = Ok out) :
  exists first rest nii,
    sorted_series C cfg dicom_input = Ok (first :: rest)
    /\ (_convert_slice_incement_inconsistencies C (first :: rest)
        = Ok (nii, MAX_SLICE_INCREMENT out)
        \/ direct_conversion C (first :: rest)
           = Ok (nii, MAX_SLICE_INCREMENT out))
    /\ NII out = match RepetitionTime first, EchoTime first with
                 | Some tr, Some te => set_tr_te C nii tr te
                 | _, _ => nii
                 end
    /\ NII_FILE out = output_file.
Proof.
  unfold dicom_to_nifti in succeeds.
  apply bind_ok in succeeds as (sorted & series & succeeds).
  apply bind_ok in succeeds as (flag & _ & succeeds).
  apply bind_ok in succeeds as ([nii maximum] & converted & succeeds).
  apply bind_ok in succeeds as (nii' & attached & [= <-]).
  cbn [NII NII_FILE MAX_SLICE_INCREMENT].
  destruct sorted as [|first rest]; [discriminate|].
  exists first, rest, nii. split; [exact series|]. split.
  - destruct (flag && settings.resample cfg); [now left | now right].
  - split; [|reflexivity]. cbn [attach_tr_te] in attached.
    destruct (RepetitionTime first), (EchoTime first); congruence.
Qed.

Lemma conversion_timing_witness :
  exists first rest nii,
    sorted_series reference all_off (map timed [1; 0]) = Ok (first :: rest)
    /\ (_convert_slice_incement_inconsistencies reference (first :: rest)
        = Ok (nii, Sqrt 1)
        \/ direct_conversion reference (first :: rest) = Ok (nii, Sqrt 1))
    /\ Image [[[0%Z]]; [[0%Z]]]
             (mkAffine (0, 0, 0) (1, 0, 0) (0, 1, 0) (1, 1) (0, 0, 1))
             (Some (2000, 30))
       = match RepetitionTime first, EchoTime first with
         | Some tr, Some te => set_tr_te reference nii tr te
         | _, _ => nii
         end
    /\ None = @None string.
Proof.
  apply (conversion_timing reference all_off (map timed [1; 0]) None
           (mkConversion reference None
              (Image [[[0%Z]]; [[0%Z]]]
                     (mkAffine (0, 0, 0) (1, 0, 0) (0, 1, 0) (1, 1) (0, 0, 1))
                     (Some (2000, 30)))
              (Sqrt 1))).
  reflexivity.
Defined.
